(** * GPT_Killer_Killer: the feature extractor, the scorer and the labeler

    A shallow embedding of [app/utils.py], of the route handler of
    [app/api/routes/ai.py] and of the request validator of
    [app/models.py].

    Modelling choices.
    - A Python [str] is a sequence of Unicode code points: [list N].
    - A Python [float] is idealised as a real number ([R]): rounding,
      infinities and NaN are outside that model.  No division of the source
      can see a zero divisor (each one is guarded or has a constant
      divisor), so the total division of [R] never shows.  Where a
      statement is about an exact value, the scorer and the labeler are
      embedded a second time over the kernel's binary64 floats (module
      [Binary64]), which compute what the program computes.
    - A [Dict[str, float]] is a [gmap string R]; subscripting a missing
      key raises [KeyError], modelled by the [result] type below.
    - The Unicode tables behind the regex classes [\w] and [\s] (and
      [str.strip]) are not part of the repository: they are parameters
      [is_word] and [is_space] of the text-processing section. *)

From Stdlib Require Import Floats.
From Stdlib Require Import Reals Lra.
From stdpp Require Import gmap strings list fin_maps.

(** ** Exceptions *)

Inductive result (A : Type) : Type :=
| Ok (a : A)
| KeyError (key : string).
Arguments Ok {A} a.
Arguments KeyError {A} key.

Definition bind {A B : Type} (r : result A) (k : A → result B) : result B :=
  match r with
  | Ok a => k a
  | KeyError key => KeyError key
  end.

Notation "x ←! r ; k" := (bind r (λ x, k))
  (at level 20, r at level 100, k at level 200, right associativity,
   format "x  ←!  r ;  '/' k").

(** [d[key]] on a dict. *)
Definition getitem (d : gmap string R) (key : string) : result R :=
  match d !! key with
  | Some v => Ok v
  | None => KeyError key
  end.

(** ** Scorer and labeler *)

Section Scoring.
Local Open Scope R_scope.

(** The builtins [min(a, b)] and [max(a, b)]: the first argument is kept
    unless the second one is strictly smaller (resp. larger). *)
Definition py_min (a b : R) : R := if Rlt_dec b a then b else a.
Definition py_max (a b : R) : R := if Rgt_dec b a then b else a.

Definition score_ai_likelihood (features : gmap string R) : result (gmap string R) :=
  ttr ←! getitem features "type_token_ratio";
  burst ←! getitem features "sentence_burstiness";
  formal ←! getitem features "formal_ending_ratio";
  conn ←! getitem features "connectives_per_sentence";
  length ←! getitem features "length_tokens";
  repetition ←! getitem features "repetition_ratio";
  let base_penalty := if Rlt_dec length 30 then 0.1 else 0.0 in
  let ttr_score := 1.0 - py_max 0.0 (py_min 1.0 ((ttr - 0.3) / (0.8 - 0.3))) in
  let burst_score := 1.0 - py_max 0.0 (py_min 1.0 (burst / 0.8)) in
  let formal_score := py_max 0.0 (py_min 1.0 (formal / 0.8)) in
  let conn_score := py_max 0.0 (py_min 1.0 (conn / 0.8)) in
  let rep_score := py_max 0.0 (py_min 1.0 (repetition / 0.2)) in
  let ai_score_raw :=
    0.30 * ttr_score +
    0.20 * burst_score +
    0.20 * formal_score +
    0.15 * conn_score +
    0.15 * rep_score in
  let ai_score := py_max 0.0 (py_min 1.0 (ai_score_raw + base_penalty)) in
  let feature_scores : gmap string R :=
    {[ "ttr_score" := ttr_score;
       "burstiness_score" := burst_score;
       "formal_score" := formal_score;
       "connectives_score" := conn_score;
       "repetition_score" := rep_score ]} in
  let feature_scores := <["ai_score_raw" := ai_score_raw]> feature_scores in
  let feature_scores := <["ai_score" := ai_score]> feature_scores in
  Ok feature_scores.

Definition label_from_score (score : R) : string :=
  if Rge_dec score 0.7 then "AI_LIKELY"
  else if Rge_dec score 0.4 then "UNCERTAIN"
  else "HUMAN_LIKELY".

End Scoring.

(** ** The scorer and the labeler in binary64

    A Python [float] is an IEEE 754 binary64 number and its operations
    round to nearest: the kernel's primitive floats.  This second embedding
    of [score_ai_likelihood] and [label_from_score] computes what the
    program computes, digit for digit; it serves where a statement is about
    an exact value. *)

#[local] Set Warnings "-inexact-float".

Module Binary64.

(** [d[key]] on a dict of floats. *)
Definition getitem (d : gmap string float) (key : string) : result float :=
  match d !! key with
  | Some v => Ok v
  | None => KeyError key
  end.

(** [min(a, b)] and [max(a, b)]: the first argument is kept unless the
    second one is strictly smaller (resp. larger). *)
Definition py_min (a b : float) : float := if (b <? a)%float then b else a.
Definition py_max (a b : float) : float := if (a <? b)%float then b else a.

Definition score_ai_likelihood (features : gmap string float)
  : result (gmap string float) :=
  ttr ←! getitem features "type_token_ratio";
  burst ←! getitem features "sentence_burstiness";
  formal ←! getitem features "formal_ending_ratio";
  conn ←! getitem features "connectives_per_sentence";
  length ←! getitem features "length_tokens";
  repetition ←! getitem features "repetition_ratio";
  (let base_penalty := if length <? 30 then 0.1 else 0.0 in
   let ttr_score := 1.0 - py_max 0.0 (py_min 1.0 ((ttr - 0.3) / (0.8 - 0.3))) in
   let burst_score := 1.0 - py_max 0.0 (py_min 1.0 (burst / 0.8)) in
   let formal_score := py_max 0.0 (py_min 1.0 (formal / 0.8)) in
   let conn_score := py_max 0.0 (py_min 1.0 (conn / 0.8)) in
   let rep_score := py_max 0.0 (py_min 1.0 (repetition / 0.2)) in
   let ai_score_raw :=
     0.30 * ttr_score +
     0.20 * burst_score +
     0.20 * formal_score +
     0.15 * conn_score +
     0.15 * rep_score in
   let ai_score := py_max 0.0 (py_min 1.0 (ai_score_raw + base_penalty)) in
   let feature_scores : gmap string float :=
     {[ "ttr_score" := ttr_score;
        "burstiness_score" := burst_score;
        "formal_score" := formal_score;
        "connectives_score" := conn_score;
        "repetition_score" := rep_score ]} in
   let feature_scores := <["ai_score_raw" := ai_score_raw]> feature_scores in
   let feature_scores := <["ai_score" := ai_score]> feature_scores in
   Ok feature_scores)%float.

Definition label_from_score (score : float) : string :=
  if (0.7 <=? score)%float then "AI_LIKELY"
  else if (0.4 <=? score)%float then "UNCERTAIN"
  else "HUMAN_LIKELY".

(** The FeatureSet of the end-to-end example of the specification. *)
Definition example_features (avg_sentence_len : float) : gmap string float :=
  {[ "length_tokens" := 40;
     "type_token_ratio" := 1.0;
     "avg_sentence_len" := avg_sentence_len;
     "sentence_burstiness" := 0;
     "repetition_ratio" := 0.05;
     "formal_ending_ratio" := 0;
     "connectives_per_sentence" := 0 ]}%float.

(** One entry of the scorer's result. *)
Definition entry_of (features : gmap string float) (key : string) : result float :=
  feature_scores ←! score_ai_likelihood features;
  getitem feature_scores key.

End Binary64.

(** ** Text processing *)

(** A code point, and a Python [str]. *)
Abbreviation char := N.
Abbreviation str := (list N).

(** 자주 쓰는 한국어 논리 연결어들 *)
Definition KOREAN_CONNECTIVES : gset str :=
  list_to_set
    [ [46608; 54620]                      (* 또한 *);
      [54616; 51648; 47564]               (* 하지만 *);
      [44536; 47084; 45208]               (* 그러나 *);
      [44208; 47200; 51201; 51004; 47196] (* 결론적으로 *);
      [50836; 50557; 54616; 51088; 47732] (* 요약하자면 *);
      [44172; 45796; 44032]               (* 게다가 *);
      [54620; 54200]                      (* 한편 *);
      [46384; 46972; 49436]               (* 따라서 *);
      [51593]                             (* 즉 *);
      [46412; 47928; 50640]               (* 때문에 *);
      [44536; 47100; 50640; 46020]        (* 그럼에도 *) ]%N.

(** 형식적인 문장 종결 *)
Definition FORMAL_ENDINGS : list str :=
  [ [45768; 45796; 46] (* 니다. *);
    [45768; 45796; 33] (* 니다! *);
    [45768; 45796; 63] (* 니다? *);
    [45796; 46]        (* 다. *);
    [45796; 33]        (* 다! *);
    [45796; 63]        (* 다? *) ]%N.

(** [s.endswith(fe)] *)
Definition endswith (s fe : str) : bool := bool_decide (fe `suffix_of` s).

(** The inner loop of the formal-ending count: the first suffix that
    matches ends the loop ([break]). *)
Fixpoint ends_with_any (endings : list str) (s : str) : bool :=
  match endings with
  | [] => false
  | fe :: endings' => if endswith s fe then true else ends_with_any endings' s
  end.

(** [formal_count] after the loop over the sentences, for a tuple of
    endings. *)
Definition count_formal (endings : list str) (sentences : list str) : nat :=
  fold_left (λ formal_count s,
               if ends_with_any endings s then S formal_count else formal_count)
            sentences 0%nat.

(** [Counter(tokens)]: a dict from token to count, in insertion order. *)
Fixpoint counter_incr (t : str) (counts : list (str * nat)) : list (str * nat) :=
  match counts with
  | [] => [(t, 1%nat)]
  | (k, n) :: counts' =>
      if decide (k = t) then (k, S n) :: counts'
      else (k, n) :: counter_incr t counts'
  end.

Definition Counter (tokens : list str) : list (str * nat) :=
  fold_left (λ counts t, counter_incr t counts) tokens [].

(** [max(items, key=itemgetter(1))] with a running best: a later item
    replaces it only when its count is strictly larger. *)
Fixpoint max_by_count (best : str * nat) (items : list (str * nat)) : str * nat :=
  match items with
  | [] => best
  | it :: items' =>
      max_by_count (if (best.2 <? it.2)%nat then it else best) items'
  end.

(** [counts.most_common(1)] *)
Definition most_common_1 (counts : list (str * nat)) : list (str * nat) :=
  match counts with
  | [] => []
  | it :: items => [max_by_count it items]
  end.

(** [sum] over floats, left to right from 0. *)
Definition sum_float (xs : list R) : R := fold_left Rplus xs 0%R.

Section Text.

(** The character classes [\w] and [\s] of Python's [re] on [str]
    patterns; [str.strip()] strips the same class [\s]. *)
Variable is_word : char → bool.
Variable is_space : char → bool.

Fixpoint lstrip (s : str) : str :=
  match s with
  | [] => []
  | c :: s' => if is_space c then lstrip s' else s
  end.

(** [s.strip()] *)
Definition strip (s : str) : str := rev (lstrip (rev (lstrip s))).

(** [re.findall(r"[\w]+", text)]: the maximal runs of word characters;
    [run] holds the current run, last character first. *)
Fixpoint findall_word (text : str) (run : str) : list str :=
  match text with
  | [] => match run with [] => [] | _ :: _ => [rev run] end
  | c :: text' =>
      if is_word c then findall_word text' (c :: run)
      else match run with
           | [] => findall_word text' []
           | _ :: _ => rev run :: findall_word text' []
           end
  end.

Definition simple_tokenize (text : str) : list str :=
  let tokens := findall_word text [] in
  filter (λ t, strip t ≠ []) tokens.

(** [re.split(r"(?<=[\.!?])\s+|\n+", text)].  The scanner is either
    looking for the start of a separator, or inside the greedy [\s+] of the
    first alternative, or inside the greedy [\n+] of the second. *)
Inductive scan : Type := Seek | InSpaces | InNewlines.

Definition is_terminal (c : char) : bool :=
  ((c =? 46) || (c =? 33) || (c =? 63))%N.

Definition lookbehind_terminal (prev : option char) : bool :=
  match prev with
  | Some p => is_terminal p
  | None => false
  end.

Definition continues (st : scan) (c : char) : bool :=
  match st with
  | Seek => false
  | InSpaces => is_space c
  | InNewlines => (c =? 10)%N
  end.

(** [prev] is the character before the current position, [piece] the text
    since the last separator, last character first. *)
Fixpoint re_split (text : str) (prev : option char) (st : scan) (piece : str)
  : list str :=
  match text with
  | [] => [rev piece]
  | c :: text' =>
      if continues st c then re_split text' (Some c) st piece
      else if lookbehind_terminal prev && is_space c
      then rev piece :: re_split text' (Some c) InSpaces []
      else if (c =? 10)%N
      then rev piece :: re_split text' (Some c) InNewlines []
      else re_split text' (Some c) Seek (c :: piece)
  end.

Definition split_sentences (text : str) : list str :=
  let raw := re_split text None Seek [] in
  let sentences := map strip (filter (λ s, strip s ≠ []) raw) in
  sentences.

Local Open Scope R_scope.

(** The body of [compute_features], with the tuple of endings that the
    formal-ending loop reads (the global [FORMAL_ENDINGS]) as a
    parameter. *)
Definition compute_features_with (endings : list str) (text : str)
  : gmap string R :=
  let sentences := split_sentences text in
  let tokens := simple_tokenize text in
  let n_tokens := length tokens in
  let n_sent := match sentences with [] => 1%nat | _ :: _ => length sentences end in
  if decide (n_tokens = 0%nat) then
    {[ "length_tokens" := 0.0;
       "type_token_ratio" := 0.0;
       "avg_sentence_len" := 0.0;
       "sentence_burstiness" := 0.0;
       "repetition_ratio" := 0.0;
       "formal_ending_ratio" := 0.0;
       "connectives_per_sentence" := 0.0 ]}
  else
    let unique_tokens : gset str := list_to_set tokens in
    let type_token_ratio := INR (size unique_tokens) / INR n_tokens in
    let sent_lens := map (λ s, length (simple_tokenize s)) sentences in
    let avg_sentence_len :=
      if decide (n_sent = 0%nat) then 0.0
      else INR (sum_list sent_lens) / INR n_sent in
    let std :=
      if decide (1 < length sent_lens)%nat then
        let mean := avg_sentence_len in
        let var :=
          sum_float (map (λ l, (INR l - mean) ^ 2) sent_lens)
          / INR (length sent_lens - 1) in
        sqrt var
      else 0.0 in
    let burstiness :=
      if Rgt_dec avg_sentence_len 0 then std / avg_sentence_len else 0.0 in
    let counts := Counter tokens in
    let most_common_freq :=
      match most_common_1 counts with
      | (_, freq) :: _ => freq
      | [] => 0%nat (* IndexError; not reached, see [most_common_1_Counter] *)
      end in
    let repetition_ratio := INR most_common_freq / INR n_tokens in
    let formal_count := count_formal endings sentences in
    let formal_ending_ratio :=
      if decide (n_sent = 0%nat) then 0.0
      else INR formal_count / INR n_sent in
    let connective_count :=
      sum_list (map (λ _, 1%nat) (filter (λ t, t ∈ KOREAN_CONNECTIVES) tokens)) in
    let connectives_per_sentence :=
      if decide (n_sent = 0%nat) then 0.0
      else INR connective_count / INR n_sent in
    {[ "length_tokens" := INR n_tokens;
       "type_token_ratio" := type_token_ratio;
       "avg_sentence_len" := avg_sentence_len;
       "sentence_burstiness" := burstiness;
       "repetition_ratio" := repetition_ratio;
       "formal_ending_ratio" := formal_ending_ratio;
       "connectives_per_sentence" := connectives_per_sentence ]}.

Definition compute_features (text : str) : gmap string R :=
  compute_features_with FORMAL_ENDINGS text.

(** ** The route handler [gpt_killer] *)

Record GPTKillerResponse : Type := {
  ai_score : R;
  label : string;
  feature_scores : gmap string R;
  meta : gmap string R;
}.

Definition gpt_killer (text : str) : result GPTKillerResponse :=
  let features := compute_features text in
  feature_scores ←! score_ai_likelihood features;
  ai_score ←! getitem feature_scores "ai_score";
  let label := label_from_score ai_score in
  length_tokens ←! getitem features "length_tokens";
  avg_sentence_len ←! getitem features "avg_sentence_len";
  sentence_burstiness ←! getitem features "sentence_burstiness";
  type_token_ratio ←! getitem features "type_token_ratio";
  formal_ending_ratio ←! getitem features "formal_ending_ratio";
  connectives_per_sentence ←! getitem features "connectives_per_sentence";
  repetition_ratio ←! getitem features "repetition_ratio";
  let meta : gmap string R :=
    {[ "length_tokens" := length_tokens;
       "avg_sentence_len" := avg_sentence_len;
       "sentence_burstiness" := sentence_burstiness;
       "type_token_ratio" := type_token_ratio;
       "formal_ending_ratio" := formal_ending_ratio;
       "connectives_per_sentence" := connectives_per_sentence;
       "repetition_ratio" := repetition_ratio ]} in
  Ok {| ai_score := ai_score;
        label := label;
        feature_scores := feature_scores;
        meta := meta |}.

End Text.

(** ** Request validation ([app/models.py])

    The three [ValueError]s of [GPTKillerRequest.text_validate], by
    message: 내용이 너무 짧습니다 (300 characters or fewer), 유효한 문자가
    없습니다 (no character left), 한국어만 검사 가능합니다 (less than 80%
    Hangul). *)

Inductive validation_error : Type :=
| TooShort
| NoValidChars
| NotKorean.

Inductive validated (A : Type) : Type :=
| Valid (v : A)
| ValueError (e : validation_error).
Arguments Valid {A} v.
Arguments ValueError {A} e.

(** ["가" <= ch <= "힣"]: the Hangul syllable block. *)
Definition is_hangul (ch : char) : bool :=
  ((44032 <=? ch) && (ch <=? 55203))%N.

Section Validation.

(** [str.isspace] on one character, which is also the class that
    [str.strip] removes. *)
Variable is_space : char → bool.

Local Open Scope R_scope.

Definition text_validate (v : str) : validated str :=
  let v := strip is_space v in
  if decide (length v ≤ 300)%nat then ValueError TooShort
  else
    let stripped := filter (λ ch, is_space ch = false) v in
    if decide (stripped = []) then ValueError NoValidChars
    else
      let korean_count :=
        sum_list (map (λ _, 1%nat) (filter (λ ch, is_hangul ch = true) stripped)) in
      let korean_ratio := INR korean_count / INR (length stripped) in
      if Rlt_dec korean_ratio 0.8 then ValueError NotKorean
      else Valid v.

End Validation.

(** ** Character classes for the examples

    Python's [\w] and [\s] restricted to ASCII and the Hangul syllable
    block (U+AC00..U+D7A3); the examples below use no other code point. *)

Definition word_ascii_hangul (c : char) : bool :=
  ((48 <=? c) && (c <=? 57) || (65 <=? c) && (c <=? 90) || (c =? 95)
   || (97 <=? c) && (c <=? 122) || (44032 <=? c) && (c <=? 55203))%N.

Definition space_ascii (c : char) : bool :=
  ((9 <=? c) && (c <=? 13) || (28 <=? c) && (c <=? 32))%N.

(** ** Specification-side definitions *)

Section SpecDefs.
Local Open Scope R_scope.

(** [clamp01(x) = max(0, min(1, x))] *)
Definition clamp01 (x : R) : R := Rmax 0 (Rmin 1 x).

(** The mean and the sample standard deviation (denominator n-1). *)
Definition mean (xs : list R) : R := sum_float xs / INR (length xs).

Definition sample_std (xs : list R) : R :=
  sqrt (sum_float (map (λ x, (x - mean xs) ^ 2) xs) / (INR (length xs) - 1)).

(** The seven keys of a FeatureSet, and the six that the scorer reads. *)
Definition FEATURE_KEYS : list string :=
  [ "length_tokens"; "type_token_ratio"; "avg_sentence_len";
    "sentence_burstiness"; "repetition_ratio"; "formal_ending_ratio";
    "connectives_per_sentence" ]%string.

Definition SCORER_KEYS : list string :=
  [ "type_token_ratio"; "sentence_burstiness"; "formal_ending_ratio";
    "connectives_per_sentence"; "length_tokens"; "repetition_ratio" ]%string.

(** The three short suffixes 다. 다! 다? *)
Definition SHORT_ENDINGS : list str :=
  [ [45796; 46]; [45796; 33]; [45796; 63] ]%N.

(** The final score of a FeatureSet, as the route handler reads it. *)
Definition ai_score_of (features : gmap string R) : result R :=
  feature_scores ←! score_ai_likelihood features;
  getitem feature_scores "ai_score".

(** The normalisations and the aggregation as section 4.4 of the
    specification writes them. *)
Definition ttr_score_of (ttr : R) : R := 1 - clamp01 ((ttr - 0.3) / 0.5).
Definition burstiness_score_of (burst : R) : R := 1 - clamp01 (burst / 0.8).
Definition formal_score_of (formal : R) : R := clamp01 (formal / 0.8).
Definition connectives_score_of (conn : R) : R := clamp01 (conn / 0.8).
Definition repetition_score_of (repetition : R) : R := clamp01 (repetition / 0.2).

Definition raw_of (ttr burst formal conn repetition : R) : R :=
  0.30 * ttr_score_of ttr + 0.20 * burstiness_score_of burst
  + 0.20 * formal_score_of formal + 0.15 * connectives_score_of conn
  + 0.15 * repetition_score_of repetition.

Definition penalty_of (length : R) : R :=
  if Rlt_dec length 30 then 0.1 else 0.

Definition final_of (ttr burst formal conn length repetition : R) : R :=
  clamp01 (raw_of ttr burst formal conn repetition + penalty_of length).

(** [scores] is the SubScoreSet of the six feature values. *)
Definition sub_scores_for (ttr burst formal conn length repetition : R)
    (scores : gmap string R) : Prop :=
  scores !! "ttr_score" = Some (ttr_score_of ttr)
  ∧ scores !! "burstiness_score" = Some (burstiness_score_of burst)
  ∧ scores !! "formal_score" = Some (formal_score_of formal)
  ∧ scores !! "connectives_score" = Some (connectives_score_of conn)
  ∧ scores !! "repetition_score" = Some (repetition_score_of repetition)
  ∧ scores !! "ai_score_raw" = Some (raw_of ttr burst formal conn repetition)
  ∧ scores !! "ai_score" = Some (final_of ttr burst formal conn length repetition).

(** The first key of [keys] that [features] lacks. *)
Fixpoint first_missing (features : gmap string R) (keys : list string)
  : option string :=
  match keys with
  | [] => None
  | k :: keys' =>
      match features !! k with
      | Some _ => first_missing features keys'
      | None => Some k
      end
  end.

(** A mapping that has the seven keys of a FeatureSet. *)
Definition is_feature_set (features : gmap string R) : Prop :=
  ∀ k, k ∈ FEATURE_KEYS → is_Some (features !! k).

(** The FeatureSet of the early return. *)
Definition zero_features : gmap string R :=
  {[ "length_tokens" := 0.0;
     "type_token_ratio" := 0.0;
     "avg_sentence_len" := 0.0;
     "sentence_burstiness" := 0.0;
     "repetition_ratio" := 0.0;
     "formal_ending_ratio" := 0.0;
     "connectives_per_sentence" := 0.0 ]}.

(** The keys of a SubScoreSet that hold a normalised value. *)
Definition UNIT_SCORE_KEYS : list string :=
  [ "ttr_score"; "burstiness_score"; "formal_score"; "connectives_score";
    "repetition_score"; "ai_score" ]%string.

(** ** Inputs of the examples *)

(** The FeatureSet of the end-to-end example of the specification. *)
Definition example_features (avg_sentence_len : R) : gmap string R :=
  {[ "length_tokens" := 40;
     "type_token_ratio" := 1.0;
     "avg_sentence_len" := avg_sentence_len;
     "sentence_burstiness" := 0;
     "repetition_ratio" := 0.05;
     "formal_ending_ratio" := 0;
     "connectives_per_sentence" := 0 ]}.

(** The same mapping without its [avg_sentence_len] entry. *)
Definition features_without_avg : gmap string R :=
  delete "avg_sentence_len" (example_features 20).

(** The text [?! ...] has no token. *)
Definition punctuation_text : str := [63; 33; 32; 46; 46; 46]%N.

(** The text [a b. c d e f.]: two sentences, of 2 and of 4 tokens. *)
Definition two_sentence_text : str :=
  [97; 32; 98; 46; 32; 99; 32; 100; 32; 101; 32; 102; 46]%N.

(** The text [a b c d e]: five tokens, each one occurring once. *)
Definition five_token_text : str := [97; 32; 98; 32; 99; 32; 100; 32; 101]%N.

(** The text 저는 학생입니다. 또한 좋다! 네 *)
Definition korean_text : str :=
  [51200; 45716; 32; 54617; 49373; 51077; 45768; 45796; 46; 32;
   46608; 54620; 32; 51339; 45796; 33; 32; 45348]%N.

End SpecDefs.

(** ** Further specification-side definitions and inputs *)

(** The request text 가나다 라마니다. repeated 31 times: 310 characters, 31
    sentences of two tokens each. *)
Definition korean_request : str :=
  concat (replicate 31
            [44032; 45208; 45796; 32; 46972; 47560; 45768; 45796; 46; 32]%N).

(** Outside [Seek] the scanner holds no pending piece. *)
Definition scanner_ok (st : scan) (piece : str) : Prop :=
  st = Seek ∨ piece = [].

(** The number of occurrences of a token. *)
Definition occurrences (t : str) (tokens : list str) : nat :=
  length (filter (λ x, x = t) tokens).

(** The count that a [Counter] stores for a key (0 when absent). *)
Fixpoint counter_get (k : str) (counts : list (str * nat)) : nat :=
  match counts with
  | [] => 0
  | (k', n) :: counts' => if decide (k' = k) then n else counter_get k counts'
  end.

(** The seven keys of a SubScoreSet. *)
Definition SUBSCORE_KEYS : list string :=
  [ "ttr_score"; "burstiness_score"; "formal_score"; "connectives_score";
    "repetition_score"; "ai_score_raw"; "ai_score" ]%string.

(** The text 가나다 라마니다. : one sentence. *)
Definition one_sentence_text : str :=
  [44032; 45208; 45796; 32; 46972; 47560; 45768; 45796; 46]%N.

(** What [split_sentences] keeps of the pieces of [re.split]. *)
Definition sentences_of (is_space : char → bool) (raw : list str) : list str :=
  map (strip is_space) (filter (λ s, strip is_space s ≠ []) raw).

(** A scanner state that has seen nothing but whitespace since the last
    separator (or since the start). *)
Definition blank_state (is_space : char → bool)
    (prev : option char) (st : scan) (piece : str) : Prop :=
  match st with
  | InSpaces => piece = []
  | InNewlines => piece = [] ∧ lookbehind_terminal prev = false
  | Seek => Forall (λ c, is_space c = true) piece
            ∧ lookbehind_terminal prev = false
  end.

(** ** Lemmas on the scorer *)

(** Reading one key of a dict literal. *)
Ltac literal_lookup :=
  repeat (rewrite lookup_insert_ne by discriminate);
  first [apply lookup_insert_eq | apply lookup_singleton_eq].

Section ScoringLemmas.
Local Open Scope R_scope.

Lemma py_min_Rmin a b : py_min a b = Rmin a b.
Proof.
  unfold py_min, Rmin.
  destruct (Rlt_dec b a), (Rle_dec a b); lra.
Qed.

Lemma py_max_Rmax a b : py_max a b = Rmax a b.
Proof.
  unfold py_max, Rmax.
  destruct (Rgt_dec b a), (Rle_dec a b); lra.
Qed.

Lemma py_clamp x : py_max 0.0 (py_min 1.0 x) = clamp01 x.
Proof.
  rewrite py_max_Rmax, py_min_Rmin. unfold clamp01.
  f_equal; [lra | f_equal; lra].
Qed.

Lemma clamp01_cases x :
  (x <= 0 ∧ clamp01 x = 0) ∨ (0 <= x <= 1 ∧ clamp01 x = x) ∨ (1 <= x ∧ clamp01 x = 1).
Proof.
  unfold clamp01, Rmax, Rmin.
  destruct (Rle_dec 1 x); destruct (Rle_dec 0 _); lra.
Qed.

Lemma clamp01_bounds x : 0 <= clamp01 x <= 1.
Proof. destruct (clamp01_cases x) as [[? ->]|[[? ->]|[? ->]]]; lra. Qed.

Lemma clamp01_mono x y : x <= y → clamp01 x <= clamp01 y.
Proof.
  intros Hxy.
  destruct (clamp01_cases x) as [[? ->]|[[? ->]|[? ->]]];
    destruct (clamp01_cases y) as [[? ->]|[[? ->]|[? ->]]]; lra.
Qed.

Lemma clamp01_id x : 0 <= x <= 1 → clamp01 x = x.
Proof. intros ?. destruct (clamp01_cases x) as [[? ->]|[[? ->]|[? ->]]]; lra. Qed.

Lemma clamp01_ge1 x : 1 <= x → clamp01 x = 1.
Proof. intros ?. destruct (clamp01_cases x) as [[? ->]|[[? ->]|[? ->]]]; lra. Qed.

Lemma clamp01_le0 x : x <= 0 → clamp01 x = 0.
Proof. intros ?. destruct (clamp01_cases x) as [[? ->]|[[? ->]|[? ->]]]; lra. Qed.

End ScoringLemmas.

Section ScorerRuns.
Local Open Scope R_scope.

Lemma score_ai_likelihood_ok (features : gmap string R)
    ttr burst formal conn length repetition :
  features !! "type_token_ratio" = Some ttr →
  features !! "sentence_burstiness" = Some burst →
  features !! "formal_ending_ratio" = Some formal →
  features !! "connectives_per_sentence" = Some conn →
  features !! "length_tokens" = Some length →
  features !! "repetition_ratio" = Some repetition →
  ∃ scores, score_ai_likelihood features = Ok scores
            ∧ sub_scores_for ttr burst formal conn length repetition scores.
Proof.
  intros Httr Hburst Hformal Hconn Hlen Hrep.
  unfold score_ai_likelihood, getitem.
  rewrite Httr, Hburst, Hformal, Hconn, Hlen, Hrep. cbn [bind].
  eexists. split; [reflexivity|].
  rewrite !py_clamp.
  replace (0.8 - 0.3) with 0.5 by lra.
  replace (1.0) with 1 by lra.
  unfold sub_scores_for.
  repeat split; simplify_map_eq; try reflexivity.
  unfold final_of, raw_of, penalty_of, ttr_score_of, burstiness_score_of,
    formal_score_of, connectives_score_of, repetition_score_of.
  destruct (Rlt_dec length 30); do 2 f_equal; lra.
Qed.

End ScorerRuns.

Section ScorerFailures.

Lemma first_missing_None (features : gmap string R) keys :
  first_missing features keys = None ↔ ∀ k, k ∈ keys → is_Some (features !! k).
Proof.
  induction keys as [|k keys IH]; simpl.
  - split; [intros _ k Hk; inversion Hk | done].
  - destruct (features !! k) as [v|] eqn:Hk.
    + rewrite IH. split.
      * intros H k' Hk'. apply elem_of_cons in Hk' as [->|Hk']; eauto.
      * intros H k' Hk'. apply H. by right.
    + split; [done|]. intros H.
      destruct (H k) as [v Hv]; [by left|]. congruence.
Qed.

Lemma first_missing_Some (features : gmap string R) keys k :
  first_missing features keys = Some k → k ∈ keys ∧ features !! k = None.
Proof.
  induction keys as [|k' keys IH]; simpl; [done|].
  destruct (features !! k') eqn:Hk'.
  - intros H. destruct (IH H). split; [by right | done].
  - intros [= <-]. split; [by left | done].
Qed.

Lemma score_ai_likelihood_KeyError (features : gmap string R) k :
  first_missing features SCORER_KEYS = Some k →
  score_ai_likelihood features = KeyError k.
Proof.
  unfold score_ai_likelihood, getitem. simpl.
  repeat (match goal with
          | |- context [features !! ?key] => destruct (features !! key); cbn [bind]
          end; [| intros Hk; inversion Hk; reflexivity]).
  discriminate.
Qed.

Lemma score_ai_likelihood_total (features : gmap string R) :
  (∀ k, k ∈ SCORER_KEYS → is_Some (features !! k)) →
  ∃ ttr burst formal conn length repetition scores,
    features !! "type_token_ratio" = Some ttr
    ∧ features !! "sentence_burstiness" = Some burst
    ∧ features !! "formal_ending_ratio" = Some formal
    ∧ features !! "connectives_per_sentence" = Some conn
    ∧ features !! "length_tokens" = Some length
    ∧ features !! "repetition_ratio" = Some repetition
    ∧ score_ai_likelihood features = Ok scores
    ∧ sub_scores_for ttr burst formal conn length repetition scores.
Proof.
  intros Hkeys.
  destruct (Hkeys "type_token_ratio") as [ttr Httr]; [set_solver|].
  destruct (Hkeys "sentence_burstiness") as [burst Hburst]; [set_solver|].
  destruct (Hkeys "formal_ending_ratio") as [formal Hformal]; [set_solver|].
  destruct (Hkeys "connectives_per_sentence") as [conn Hconn]; [set_solver|].
  destruct (Hkeys "length_tokens") as [length Hlen]; [set_solver|].
  destruct (Hkeys "repetition_ratio") as [repetition Hrep]; [set_solver|].
  destruct (score_ai_likelihood_ok features _ _ _ _ _ _
              Httr Hburst Hformal Hconn Hlen Hrep) as (scores & Hrun & Hs).
  exists ttr, burst, formal, conn, length, repetition, scores. done.
Qed.

Lemma scorer_keys_feature_keys k : k ∈ SCORER_KEYS → k ∈ FEATURE_KEYS.
Proof.
  unfold SCORER_KEYS, FEATURE_KEYS. rewrite !elem_of_cons, !elem_of_nil.
  tauto.
Qed.

End ScorerFailures.

Section ScorerProperties.
Local Open Scope R_scope.

Lemma feature_set_values (features : gmap string R) :
  is_feature_set features →
  ∃ ttr burst formal conn length repetition scores,
    features !! "type_token_ratio" = Some ttr
    ∧ features !! "sentence_burstiness" = Some burst
    ∧ features !! "formal_ending_ratio" = Some formal
    ∧ features !! "connectives_per_sentence" = Some conn
    ∧ features !! "length_tokens" = Some length
    ∧ features !! "repetition_ratio" = Some repetition
    ∧ score_ai_likelihood features = Ok scores
    ∧ sub_scores_for ttr burst formal conn length repetition scores.
Proof.
  intros Hfs. apply score_ai_likelihood_total.
  intros k Hk. apply Hfs, scorer_keys_feature_keys, Hk.
Qed.

Lemma ai_score_of_ok (features : gmap string R)
    ttr burst formal conn length repetition :
  features !! "type_token_ratio" = Some ttr →
  features !! "sentence_burstiness" = Some burst →
  features !! "formal_ending_ratio" = Some formal →
  features !! "connectives_per_sentence" = Some conn →
  features !! "length_tokens" = Some length →
  features !! "repetition_ratio" = Some repetition →
  ai_score_of features = Ok (final_of ttr burst formal conn length repetition).
Proof.
  intros Httr Hburst Hformal Hconn Hlen Hrep.
  destruct (score_ai_likelihood_ok features _ _ _ _ _ _
              Httr Hburst Hformal Hconn Hlen Hrep)
    as (scores & Hrun & _ & _ & _ & _ & _ & _ & Hfinal).
  unfold ai_score_of, getitem. rewrite Hrun. cbn [bind]. by rewrite Hfinal.
Qed.

Lemma ttr_score_bounds ttr : 0 <= ttr_score_of ttr <= 1.
Proof.
  unfold ttr_score_of. pose proof (clamp01_bounds ((ttr - 0.3) / 0.5)). lra.
Qed.

Lemma burstiness_score_bounds burst : 0 <= burstiness_score_of burst <= 1.
Proof.
  unfold burstiness_score_of. pose proof (clamp01_bounds (burst / 0.8)). lra.
Qed.

Lemma raw_bounds ttr burst formal conn repetition :
  0 <= raw_of ttr burst formal conn repetition <= 1.
Proof.
  unfold raw_of.
  pose proof (ttr_score_bounds ttr).
  pose proof (burstiness_score_bounds burst).
  pose proof (clamp01_bounds (formal / 0.8)).
  pose proof (clamp01_bounds (conn / 0.8)).
  pose proof (clamp01_bounds (repetition / 0.2)).
  unfold formal_score_of, connectives_score_of, repetition_score_of. lra.
Qed.

Lemma final_mono_formal ttr burst conn length repetition a b :
  a <= b →
  final_of ttr burst a conn length repetition
  <= final_of ttr burst b conn length repetition.
Proof.
  intros Hab. unfold final_of. apply clamp01_mono.
  unfold raw_of, formal_score_of.
  pose proof (clamp01_mono (a / 0.8) (b / 0.8)). lra.
Qed.

Lemma final_antimono_ttr burst formal conn length repetition a b :
  a <= b →
  final_of b burst formal conn length repetition
  <= final_of a burst formal conn length repetition.
Proof.
  intros Hab. unfold final_of. apply clamp01_mono.
  unfold raw_of, ttr_score_of.
  pose proof (clamp01_mono ((a - 0.3) / 0.5) ((b - 0.3) / 0.5)). lra.
Qed.

Lemma example_features_is_feature_set avg : is_feature_set (example_features avg).
Proof.
  intros k. unfold FEATURE_KEYS, example_features.
  rewrite !elem_of_cons, elem_of_nil.
  intros [->|[->|[->|[->|[->|[->|[->|[]]]]]]]]; by simplify_map_eq.
Qed.

End ScorerProperties.

(** ** The claims on the scorer and the labeler *)

Section ScorerClaims.
Local Open Scope R_scope.

(** C2, as stated, fails: [avg_sentence_len] is one of the seven keys, the
    mapping [features_without_avg] omits it (and only it), and
    [score_ai_likelihood] returns a SubScoreSet for it, raising no
    [KeyError]. *)
Lemma C2_avg_sentence_len_not_read :
  "avg_sentence_len" ∈ FEATURE_KEYS
  ∧ features_without_avg !! "avg_sentence_len" = None
  ∧ (∃ scores, score_ai_likelihood features_without_avg = Ok scores
               ∧ scores !! "ai_score" = Some 0.2375)
  ∧ (∀ key, score_ai_likelihood features_without_avg ≠ KeyError key).
Proof.
  assert (∃ scores, score_ai_likelihood features_without_avg = Ok scores
                    ∧ scores !! "ai_score" = Some 0.2375) as Hrun.
  { destruct (score_ai_likelihood_ok features_without_avg 1.0 0 0 0 40 0.05)
      as (scores & Hrun & Hs); try (by unfold features_without_avg, example_features;
                                     simplify_map_eq).
    exists scores. split; [done|].
    destruct Hs as (_ & _ & _ & _ & _ & _ & ->). f_equal.
    unfold final_of, raw_of, penalty_of, ttr_score_of, burstiness_score_of,
      formal_score_of, connectives_score_of, repetition_score_of.
    destruct (Rlt_dec 40 30); [lra|].
    rewrite (clamp01_ge1 ((1.0 - 0.3) / 0.5)) by lra.
    rewrite !(clamp01_le0 (0 / 0.8)) by lra.
    rewrite (clamp01_id (0.05 / 0.2)) by lra.
    rewrite clamp01_id; lra. }
  split; [unfold FEATURE_KEYS; rewrite !elem_of_cons; tauto|].
  split; [apply lookup_delete_eq|].
  split; [exact Hrun|].
  intros key Hkey. destruct Hrun as (scores & Hrun & _). congruence.
Qed.

(** C2 (amended): a mapping that omits any one of the six keys that the
    scorer reads (every FeatureSet key but [avg_sentence_len]) makes
    [score_ai_likelihood] fail with a [KeyError], on the first key missing
    in reading order; and removing [avg_sentence_len] from a mapping that
    has the six keys leaves a mapping that is scored without error. *)
Theorem C2_missing_scorer_key (features : gmap string R) :
  (∀ key, key ∈ SCORER_KEYS → features !! key = None →
          ∃ k, k ∈ SCORER_KEYS ∧ features !! k = None
               ∧ first_missing features SCORER_KEYS = Some k
               ∧ score_ai_likelihood features = KeyError k)
  ∧ ((∀ key, key ∈ SCORER_KEYS → is_Some (features !! key)) →
     ∃ scores, score_ai_likelihood (delete "avg_sentence_len" features) = Ok scores).
Proof.
  split.
  - intros key Hkey Hnone.
    destruct (first_missing features SCORER_KEYS) as [k|] eqn:Hfirst.
    + destruct (first_missing_Some _ _ _ Hfirst) as [Hk Hk'].
      exists k. repeat split; try done.
      by apply score_ai_likelihood_KeyError.
    + pose proof (proj1 (first_missing_None features SCORER_KEYS) Hfirst) as Hall.
      destruct (Hall key Hkey) as [v Hv]. congruence.
  - intros Hkeys.
    destruct (score_ai_likelihood_total (delete "avg_sentence_len" features))
      as (? & ? & ? & ? & ? & ? & scores & _ & _ & _ & _ & _ & _ & Hrun & _).
    + intros k Hk. rewrite lookup_delete_ne; [by apply Hkeys|].
      intros <-. revert Hk. unfold SCORER_KEYS.
      rewrite !elem_of_cons, elem_of_nil. intros Hk.
      repeat (destruct Hk as [Hk|Hk]; [discriminate Hk|]). done.
    + by exists scores.
Qed.

(** C3, as stated, fails on the program's binary64 arithmetic: on the
    FeatureSet of the end-to-end example the sum 0.20 * 1.0 + 0.15 * 0.25
    rounds to 0.23750000000000002, the float next above 0.2375, so
    [ai_score_raw] and [ai_score] are not 0.2375 (Python's [==] on the two
    floats is false). *)
Lemma C3_binary64_score_is_not_02375 :
  Binary64.entry_of (Binary64.example_features 20) "ai_score_raw"
  = Ok 0.23750000000000002%float
  ∧ Binary64.entry_of (Binary64.example_features 20) "ai_score"
    = Ok 0.23750000000000002%float
  ∧ (0.23750000000000002 =? 0.2375)%float = false
  ∧ Binary64.entry_of (Binary64.example_features 20) "ai_score_raw"
    ≠ Ok 0.2375%float
  ∧ Binary64.entry_of (Binary64.example_features 20) "ai_score"
    ≠ Ok 0.2375%float.
Proof.
  assert (Binary64.entry_of (Binary64.example_features 20) "ai_score_raw"
          = Ok 0.23750000000000002%float) as Hraw by (vm_compute; reflexivity).
  assert (Binary64.entry_of (Binary64.example_features 20) "ai_score"
          = Ok 0.23750000000000002%float) as Hfinal by (vm_compute; reflexivity).
  assert (Ok 0.23750000000000002%float ≠ Ok 0.2375%float) as Hne.
  { intros Heq.
    apply (f_equal (λ r, match r with
                         | Ok x => (x =? 0.2375)%float
                         | KeyError _ => true
                         end)) in Heq.
    vm_compute in Heq. discriminate Heq. }
  split; [exact Hraw|]. split; [exact Hfinal|].
  split; [vm_compute; reflexivity|].
  rewrite Hraw, Hfinal. split; exact Hne.
Qed.

(** C3 (amended): in binary64, the scorer on the FeatureSet of the
    end-to-end example, whatever its [avg_sentence_len], yields the
    sub-scores 0, 1.0, 0, 0 and 0.25; there is no short-text penalty (40
    is not below 30); [ai_score_raw] and [ai_score] are both
    0.23750000000000002, the float next above 0.2375; and the label of that
    score is HUMAN_LIKELY. *)
Theorem C3_end_to_end_example_binary64 (avg_sentence_len : float) :
  let features := Binary64.example_features avg_sentence_len in
  Binary64.entry_of features "ttr_score" = Ok 0%float
  ∧ Binary64.entry_of features "burstiness_score" = Ok 1.0%float
  ∧ Binary64.entry_of features "formal_score" = Ok 0%float
  ∧ Binary64.entry_of features "connectives_score" = Ok 0%float
  ∧ Binary64.entry_of features "repetition_score" = Ok 0.25%float
  ∧ Binary64.entry_of features "ai_score_raw" = Ok 0.23750000000000002%float
  ∧ Binary64.entry_of features "ai_score" = Ok 0.23750000000000002%float
  ∧ (40 <? 30)%float = false
  ∧ PrimFloat.next_up 0.2375 = 0.23750000000000002%float
  ∧ Binary64.label_from_score 0.23750000000000002
    = "HUMAN_LIKELY"%string.
Proof. repeat split; vm_compute; reflexivity. Qed.

(** C4: [label_from_score] is total and partitions the reals at 0.4 and
    0.7: AI_LIKELY exactly from 0.7 up, UNCERTAIN exactly on [0.4, 0.7),
    HUMAN_LIKELY exactly below 0.4; the three labels are distinct, so each
    score has exactly one; 0.7 itself is AI_LIKELY and 0.4 itself is
    UNCERTAIN. *)
Theorem C4_label_partition (score : R) :
  (label_from_score score = "AI_LIKELY"%string ↔ score >= 0.7)
  ∧ (label_from_score score = "UNCERTAIN"%string ↔ 0.4 <= score < 0.7)
  ∧ (label_from_score score = "HUMAN_LIKELY"%string ↔ score < 0.4)
  ∧ label_from_score 0.7 = "AI_LIKELY"%string
  ∧ label_from_score 0.4 = "UNCERTAIN"%string.
Proof.
  unfold label_from_score.
  destruct (Rge_dec score 0.7), (Rge_dec score 0.4),
    (Rge_dec 0.7 0.7), (Rge_dec 0.4 0.7), (Rge_dec 0.4 0.4);
    repeat split; intros; first [reflexivity | discriminate | lra].
Qed.

End ScorerClaims.

(** ** Lemmas on the feature extractor *)

Section ListLemmas.
Local Open Scope R_scope.

Lemma sum_float_from (xs : list R) (acc : R) :
  fold_left Rplus xs acc = acc + sum_float xs.
Proof.
  unfold sum_float. revert acc.
  induction xs as [|x xs IH]; intros acc; simpl; [lra|].
  rewrite (IH (acc + x)), (IH (0 + x)). lra.
Qed.

Lemma sum_float_cons (x : R) (xs : list R) :
  sum_float (x :: xs) = x + sum_float xs.
Proof. unfold sum_float. simpl. rewrite sum_float_from. unfold sum_float. lra. Qed.

Lemma INR_sum_list (ls : list nat) : INR (sum_list ls) = sum_float (map INR ls).
Proof.
  induction ls as [|l ls IH]; [reflexivity|].
  cbn [sum_list sum_list_with map]. rewrite sum_float_cons, plus_INR, IH.
  reflexivity.
Qed.

Lemma counter_incr_not_nil t counts : counter_incr t counts ≠ [].
Proof. destruct counts as [|[k n] counts]; simpl; [done|]. by case_decide. Qed.

Lemma Counter_from_not_nil tokens counts :
  counts ≠ [] → fold_left (λ counts t, counter_incr t counts) tokens counts ≠ [].
Proof.
  revert counts. induction tokens as [|t tokens IH]; intros counts H; simpl; [done|].
  apply IH, counter_incr_not_nil.
Qed.

(** [counts.most_common(1)[0]] exists whenever there is a token. *)
Lemma most_common_1_Counter tokens :
  tokens ≠ [] → ∃ item, most_common_1 (Counter tokens) = [item].
Proof.
  destruct tokens as [|t tokens]; [done|]. intros _.
  unfold Counter. simpl.
  pose proof (Counter_from_not_nil tokens [(t, 1%nat)]) as Hne.
  destruct (fold_left _ tokens _) as [|it items]; [by destruct Hne|].
  simpl. eauto.
Qed.

Lemma endswith_longer (s fe fe' : str) :
  fe `suffix_of` fe' → endswith s fe' = true → endswith s fe = true.
Proof.
  unfold endswith. rewrite !bool_decide_eq_true.
  intros H1 H2. by etrans.
Qed.

(** Which sentences count as formal does not depend on the three 니다
    entries. *)
Lemma ends_with_any_short (s : str) :
  ends_with_any FORMAL_ENDINGS s = ends_with_any SHORT_ENDINGS s.
Proof.
  unfold FORMAL_ENDINGS, SHORT_ENDINGS. cbn [ends_with_any].
  destruct (endswith s [45768; 45796; 46]%N) eqn:H1.
  { rewrite (endswith_longer s [45796; 46]%N _ (suffix_cons_r _ _ _ (reflexivity _)) H1).
    reflexivity. }
  destruct (endswith s [45768; 45796; 33]%N) eqn:H2.
  { rewrite (endswith_longer s [45796; 33]%N _ (suffix_cons_r _ _ _ (reflexivity _)) H2).
    by destruct (endswith s [45796; 46]%N). }
  destruct (endswith s [45768; 45796; 63]%N) eqn:H3.
  { rewrite (endswith_longer s [45796; 63]%N _ (suffix_cons_r _ _ _ (reflexivity _)) H3).
    by destruct (endswith s [45796; 46]%N), (endswith s [45796; 33]%N). }
  reflexivity.
Qed.

Lemma count_formal_from (endings endings' : list str) sentences (n : nat) :
  (∀ s, ends_with_any endings s = ends_with_any endings' s) →
  fold_left (λ formal_count s,
               if ends_with_any endings s then S formal_count else formal_count)
            sentences n
  = fold_left (λ formal_count s,
                 if ends_with_any endings' s then S formal_count else formal_count)
              sentences n.
Proof.
  intros Hsame. revert n.
  induction sentences as [|s sentences IH]; intros n; simpl; [done|].
  by rewrite Hsame, IH.
Qed.

Lemma count_formal_short sentences :
  count_formal FORMAL_ENDINGS sentences = count_formal SHORT_ENDINGS sentences.
Proof. apply count_formal_from, ends_with_any_short. Qed.

End ListLemmas.

Section ZeroFeatures.
Local Open Scope R_scope.

Lemma feature_literal_is_feature_set (a b c d e f g : R) :
  is_feature_set
    {[ "length_tokens" := a;
       "type_token_ratio" := b;
       "avg_sentence_len" := c;
       "sentence_burstiness" := d;
       "repetition_ratio" := e;
       "formal_ending_ratio" := f;
       "connectives_per_sentence" := g ]}.
Proof.
  intros k. unfold FEATURE_KEYS. rewrite !elem_of_cons, elem_of_nil.
  intros [->|[->|[->|[->|[->|[->|[->|[]]]]]]]]; eexists; literal_lookup.
Qed.

Lemma zero_features_values k : k ∈ FEATURE_KEYS → zero_features !! k = Some 0.
Proof.
  unfold FEATURE_KEYS, zero_features. rewrite !elem_of_cons, elem_of_nil.
  replace 0.0 with 0 by lra.
  intros [->|[->|[->|[->|[->|[->|[->|[]]]]]]]]; literal_lookup.
Qed.

(** With all features at 0 the type-token sub-score and the burstiness
    sub-score are both 1, the other three are 0: the raw score is
    0.30 + 0.20 and the short-text penalty brings the final score to 0.6. *)
Lemma zero_features_scores :
  ∃ scores, score_ai_likelihood zero_features = Ok scores
            ∧ scores !! "ttr_score" = Some 1
            ∧ scores !! "burstiness_score" = Some 1
            ∧ scores !! "ai_score_raw" = Some 0.5
            ∧ scores !! "ai_score" = Some 0.6.
Proof.
  destruct (score_ai_likelihood_ok zero_features 0.0 0.0 0.0 0.0 0.0 0.0)
    as (scores & Hrun & H1 & H2 & _ & _ & _ & H6 & H7);
    try (unfold zero_features; literal_lookup).
  assert (ttr_score_of 0.0 = 1) as Httr.
  { unfold ttr_score_of. rewrite clamp01_le0; lra. }
  assert (burstiness_score_of 0.0 = 1) as Hburst.
  { unfold burstiness_score_of. rewrite clamp01_le0; lra. }
  assert (raw_of 0.0 0.0 0.0 0.0 0.0 = 0.5) as Hraw.
  { unfold raw_of. rewrite Httr, Hburst.
    unfold formal_score_of, connectives_score_of, repetition_score_of.
    rewrite !clamp01_le0; lra. }
  assert (final_of 0.0 0.0 0.0 0.0 0.0 0.0 = 0.6) as Hfinal.
  { unfold final_of, penalty_of. rewrite Hraw.
    destruct (Rlt_dec 0.0 30); [|lra]. rewrite clamp01_id; lra. }
  exists scores. rewrite Httr in H1. rewrite Hburst in H2.
  rewrite Hraw in H6. rewrite Hfinal in H7. done.
Qed.

Lemma label_of_06 : label_from_score 0.6 = "UNCERTAIN"%string.
Proof.
  unfold label_from_score.
  destruct (Rge_dec 0.6 0.7); [lra|]. destruct (Rge_dec 0.6 0.4); [done|lra].
Qed.

End ZeroFeatures.

Section FeatureLemmas.
Local Open Scope R_scope.

Variable is_word : char → bool.
Variable is_space : char → bool.

Lemma compute_features_with_zero endings text :
  length (simple_tokenize is_word is_space text) = 0%nat →
  compute_features_with is_word is_space endings text = zero_features.
Proof.
  intros Hzero. unfold compute_features_with. cbv zeta.
  destruct (decide _) as [_|Hne]; [reflexivity | contradiction].
Qed.

Lemma compute_features_with_is_feature_set endings text :
  is_feature_set (compute_features_with is_word is_space endings text).
Proof.
  unfold compute_features_with. cbv zeta.
  destruct (decide _); apply feature_literal_is_feature_set.
Qed.

Lemma compute_features_is_feature_set text :
  is_feature_set (compute_features is_word is_space text).
Proof. apply compute_features_with_is_feature_set. Qed.

(** The handler never raises; its [ai_score] is the final score of the
    features of the text and its [meta] holds these features. *)
Lemma gpt_killer_ok text :
  ∃ response,
    gpt_killer is_word is_space text = Ok response
    ∧ score_ai_likelihood (compute_features is_word is_space text)
      = Ok (feature_scores response)
    ∧ ai_score_of (compute_features is_word is_space text)
      = Ok (ai_score response)
    ∧ label response = label_from_score (ai_score response)
    ∧ meta response = compute_features is_word is_space text.
Proof.
  pose proof (compute_features_is_feature_set text) as Hfs.
  destruct (feature_set_values _ Hfs)
    as (ttr & burst & formal & conn & length & repetition & scores
        & Httr & Hburst & Hformal & Hconn & Hlen & Hrep & Hrun & Hs).
  destruct (Hfs "avg_sentence_len") as [avg Havg].
  { unfold FEATURE_KEYS. rewrite !elem_of_cons. tauto. }
  destruct Hs as (_ & _ & _ & _ & _ & _ & Hfinal).
  eexists.
  unfold gpt_killer, ai_score_of. cbv zeta. rewrite Hrun. cbn [bind].
  unfold getitem. rewrite Hfinal, Hlen, Havg, Hburst, Httr, Hformal, Hconn, Hrep.
  cbn [bind]. split; [reflexivity|]. cbn [ai_score label meta feature_scores].
  repeat split.
  apply map_eq. intros k.
  repeat (rewrite lookup_insert; case_decide; [by subst k|]).
  rewrite lookup_singleton. case_decide; [by subst k|].
  symmetry. unfold compute_features, compute_features_with. cbv zeta.
  destruct (decide _);
    repeat (rewrite lookup_insert_ne by done); by rewrite lookup_singleton_ne.
Qed.

End FeatureLemmas.

Section SentenceStatistics.
Local Open Scope R_scope.

Variable is_word : char → bool.
Variable is_space : char → bool.

(** The two sentence-length features on the main path of
    [compute_features]. *)
Lemma compute_features_sentence_stats endings text :
  length (simple_tokenize is_word is_space text) ≠ 0%nat →
  let sentences := split_sentences is_space text in
  let sent_lens := map (λ s, length (simple_tokenize is_word is_space s)) sentences in
  let n_sent := match sentences with [] => 1%nat | _ :: _ => length sentences end in
  let avg := INR (sum_list sent_lens) / INR n_sent in
  let std :=
    if decide (1 < length sent_lens)%nat
    then sqrt (sum_float (map (λ l, (INR l - avg) ^ 2) sent_lens)
               / INR (length sent_lens - 1))
    else 0 in
  let features := compute_features_with is_word is_space endings text in
  features !! "avg_sentence_len" = Some avg
  ∧ features !! "sentence_burstiness"
    = Some (if Rgt_dec avg 0 then std / avg else 0).
Proof.
  intros Hne. cbv zeta. unfold compute_features_with. cbv zeta.
  destruct (decide _) as [|_]; [contradiction|].
  replace 0.0 with 0 by lra.
  destruct (decide (match split_sentences is_space text with
                    | [] => 1%nat
                    | _ :: _ => length (split_sentences is_space text)
                    end = 0%nat)) as [Hn|_].
  { destruct (split_sentences is_space text); discriminate Hn. }
  split; literal_lookup.
Qed.

Lemma sent_lens_real (sentences : list str) :
  map INR (map (λ s, length (simple_tokenize is_word is_space s)) sentences)
  = map (λ s, INR (length (simple_tokenize is_word is_space s))) sentences.
Proof. by rewrite map_map. Qed.

(** The repetition feature on the main path of [compute_features]. *)
Lemma compute_features_repetition endings text :
  length (simple_tokenize is_word is_space text) ≠ 0%nat →
  let tokens := simple_tokenize is_word is_space text in
  compute_features_with is_word is_space endings text !! "repetition_ratio"
  = Some (INR (match most_common_1 (Counter tokens) with
               | (_, freq) :: _ => freq
               | [] => 0%nat
               end) / INR (length tokens)).
Proof.
  intros Hne. cbv zeta. unfold compute_features_with. cbv zeta.
  destruct (decide _) as [|_]; [contradiction|]. literal_lookup.
Qed.

End SentenceStatistics.

(** ** Texts without a token

    In Unicode no word character is a whitespace character.  Under that
    assumption on the two classes a text has no token exactly when it has
    no word character, and then none of its sentences has a token. *)

Section TokenLemmas.

Variable is_word : char → bool.
Variable is_space : char → bool.
Hypothesis word_not_space : ∀ c, is_word c = true → is_space c = false.

Lemma lstrip_word c s : is_word c = true → lstrip is_space (c :: s) = c :: s.
Proof. intros Hc. simpl. by rewrite (word_not_space c Hc). Qed.

Lemma strip_token t :
  Forall (λ c, is_word c = true) t → strip is_space t = t.
Proof.
  intros Hword. destruct t as [|c t]; [reflexivity|].
  unfold strip. rewrite lstrip_word by (by inversion Hword).
  destruct (rev (c :: t)) as [|d r] eqn:Hrev.
  { apply (f_equal (@length _)) in Hrev. rewrite length_rev in Hrev.
    discriminate Hrev. }
  rewrite lstrip_word.
  - rewrite <- Hrev. apply rev_involutive.
  - rewrite Forall_forall in Hword. apply Hword.
    apply list_elem_of_In, in_rev. rewrite Hrev. by left.
Qed.

Lemma findall_word_tokens text run :
  Forall (λ c, is_word c = true) run →
  Forall (λ t, t ≠ [] ∧ Forall (λ c, is_word c = true) t)
         (findall_word is_word text run).
Proof.
  revert run. induction text as [|c text IH]; intros run Hrun; simpl.
  - destruct run as [|d run]; [constructor|].
    constructor; [|constructor]. split.
    + simpl. by destruct (rev run).
    + apply Forall_forall. intros x Hx. rewrite Forall_forall in Hrun.
      apply Hrun. by apply list_elem_of_In, in_rev, list_elem_of_In.
  - destruct (is_word c) eqn:Hc.
    + apply IH. by constructor.
    + destruct run as [|d run]; [by apply IH|].
      constructor; [|by apply IH]. split.
      * simpl. by destruct (rev run).
      * apply Forall_forall. intros x Hx. rewrite Forall_forall in Hrun.
        apply Hrun. by apply list_elem_of_In, in_rev, list_elem_of_In.
Qed.

(** The filter of [simple_tokenize] drops nothing. *)
Lemma simple_tokenize_findall text :
  simple_tokenize is_word is_space text = findall_word is_word text [].
Proof.
  unfold simple_tokenize.
  pose proof (findall_word_tokens text [] ltac:(constructor)) as Htokens.
  induction Htokens as [|t tokens [Hne Hword] _ IH]; [reflexivity|].
  rewrite filter_cons_True; [by rewrite IH|].
  by rewrite strip_token.
Qed.

Lemma findall_word_nil text run :
  findall_word is_word text run = [] →
  run = [] ∧ Forall (λ c, is_word c = false) text.
Proof.
  revert run. induction text as [|c text IH]; intros run; simpl.
  - destruct run; [done | discriminate].
  - destruct (is_word c) eqn:Hc.
    + intros H. by destruct (IH _ H).
    + destruct run; [|discriminate].
      intros H. destruct (IH _ H) as [_ Htext]. split; [done|].
      by constructor.
Qed.

Lemma findall_word_no_word text :
  Forall (λ c, is_word c = false) text → findall_word is_word text [] = [].
Proof.
  induction 1 as [|c text Hc _ IH]; [reflexivity|].
  simpl. by rewrite Hc.
Qed.

Lemma lstrip_elem c s : c ∈ lstrip is_space s → c ∈ s.
Proof.
  induction s as [|d s IH]; simpl; [done|].
  destruct (is_space d); [|done]. intros H. right. by apply IH.
Qed.

Lemma strip_elem c s : c ∈ strip is_space s → c ∈ s.
Proof.
  unfold strip. intros H.
  apply list_elem_of_In, in_rev, list_elem_of_In, lstrip_elem in H.
  apply list_elem_of_In, in_rev, list_elem_of_In, lstrip_elem in H.
  exact H.
Qed.

Lemma re_split_elem text prev st piece s c :
  s ∈ re_split is_space text prev st piece → c ∈ s → c ∈ text ∨ c ∈ piece.
Proof.
  revert prev st piece.
  induction text as [|d text IH]; intros prev st piece; simpl.
  - rewrite elem_of_cons, elem_of_nil. intros [->|[]] Hc.
    right. by apply list_elem_of_In, in_rev, list_elem_of_In.
  - assert (∀ prev' st',
              s ∈ rev piece :: re_split is_space text prev' st' [] →
              c ∈ s → c ∈ d :: text ∨ c ∈ piece) as Hcut.
    { intros prev' st'. rewrite elem_of_cons. intros [->|Hs] Hc.
      - right. by apply list_elem_of_In, in_rev, list_elem_of_In.
      - destruct (IH _ _ _ Hs Hc) as [H|H]; [left; by right|].
        by apply elem_of_nil in H. }
    destruct (continues is_space st d).
    { intros Hs Hc. destruct (IH _ _ _ Hs Hc); [left; by right | by right]. }
    destruct (lookbehind_terminal prev && is_space d); [apply Hcut|].
    destruct (d =? 10)%N; [apply Hcut|].
    intros Hs Hc. destruct (IH _ _ _ Hs Hc) as [H|H]; [left; by right|].
    apply elem_of_cons in H as [->|H]; [left; by left | by right].
Qed.

Lemma split_sentences_elem text s c :
  s ∈ split_sentences is_space text → c ∈ s → c ∈ text.
Proof.
  unfold split_sentences. intros Hs Hc.
  apply list_elem_of_In, in_map_iff in Hs as (raw & <- & Hraw).
  apply list_elem_of_In, list_elem_of_filter in Hraw as [_ Hraw].
  apply strip_elem in Hc.
  destruct (re_split_elem _ _ _ _ _ _ Hraw Hc) as [H|H]; [done|].
  by apply elem_of_nil in H.
Qed.

(** A sentence of a text without a token has no token. *)
Lemma no_token_sentences text s :
  length (simple_tokenize is_word is_space text) = 0%nat →
  s ∈ split_sentences is_space text →
  simple_tokenize is_word is_space s = [].
Proof.
  intros Hzero Hs.
  apply nil_length_inv in Hzero. rewrite simple_tokenize_findall in Hzero.
  apply findall_word_nil in Hzero as [_ Htext].
  rewrite simple_tokenize_findall. apply findall_word_no_word.
  apply Forall_forall. intros c Hc. rewrite Forall_forall in Htext.
  apply Htext. by apply (split_sentences_elem text s).
Qed.

Lemma no_token_sentence_lengths text :
  length (simple_tokenize is_word is_space text) = 0%nat →
  sum_list (map (λ s, length (simple_tokenize is_word is_space s))
                (split_sentences is_space text)) = 0%nat.
Proof.
  intros Hzero.
  assert (∀ s, s ∈ split_sentences is_space text →
               length (simple_tokenize is_word is_space s) = 0%nat) as Hall.
  { intros s Hs. by rewrite (no_token_sentences text s). }
  induction (split_sentences is_space text) as [|s sentences IH]; [reflexivity|].
  cbn [map sum_list sum_list_with]. rewrite Hall by (by left).
  apply IH. intros s' Hs'. apply Hall. by right.
Qed.

End TokenLemmas.

(** ** The claims on the feature extractor and on the whole pipeline *)

Section FeatureClaims.
Local Open Scope R_scope.

Variable is_word : char → bool.
Variable is_space : char → bool.

(** C1 (amended): for every text with no token, [compute_features] returns
    the FeatureSet whose seven values are 0, and [score_ai_likelihood] on it
    yields [ai_score_raw] = 0.5 (the type-token and the burstiness
    sub-scores are both 1) and [ai_score] = 0.6 (with the short-text
    penalty 0.1); its label, and the label of the handler's response, is
    UNCERTAIN. *)
Theorem C1_zero_token_text text :
  length (simple_tokenize is_word is_space text) = 0%nat →
  compute_features is_word is_space text = zero_features
  ∧ (∀ k, k ∈ FEATURE_KEYS → compute_features is_word is_space text !! k = Some 0)
  ∧ (∃ scores,
       score_ai_likelihood (compute_features is_word is_space text) = Ok scores
       ∧ scores !! "ai_score_raw" = Some 0.5
       ∧ scores !! "ai_score" = Some 0.6)
  ∧ label_from_score 0.6 = "UNCERTAIN"%string
  ∧ (∃ response,
       gpt_killer is_word is_space text = Ok response
       ∧ ai_score response = 0.6
       ∧ label response = "UNCERTAIN"%string).
Proof.
  intros Hzero.
  assert (compute_features is_word is_space text = zero_features) as Heq.
  { by apply compute_features_with_zero. }
  destruct zero_features_scores as (scores & Hrun & _ & _ & Hraw & Hfinal).
  split; [exact Heq|].
  split; [intros k Hk; rewrite Heq; by apply zero_features_values|].
  split; [exists scores; by rewrite Heq|].
  split; [apply label_of_06|].
  destruct (gpt_killer_ok is_word is_space text)
    as (response & Hresp & _ & Hscore & Hlabel & _).
  exists response. split; [exact Hresp|].
  assert (ai_score response = 0.6) as Hai.
  { rewrite Heq in Hscore. unfold ai_score_of, getitem in Hscore.
    rewrite Hrun in Hscore. cbn [bind] in Hscore. rewrite Hfinal in Hscore.
    by inversion Hscore. }
  split; [exact Hai|]. rewrite Hlabel, Hai. apply label_of_06.
Qed.

(** C7: the [sentence_burstiness] that [compute_features] returns is the
    sample standard deviation (denominator n-1) of the per-sentence token
    counts divided by the returned [avg_sentence_len], which is then their
    mean, whenever there are at least two sentences and [avg_sentence_len]
    is positive; it is 0 when [avg_sentence_len] is 0 or when there are
    fewer than two sentences, so for every text of a single sentence.
    When no word character is a whitespace character, the returned
    [avg_sentence_len] is on every path, the early return included, the sum
    of the per-sentence token counts over the sentence count (taken as 1
    when there is no sentence). *)
Theorem C7_sentence_burstiness text :
  let sentences := split_sentences is_space text in
  let lens := map (λ s, INR (length (simple_tokenize is_word is_space s))) sentences in
  ∃ avg burst,
    compute_features is_word is_space text !! "avg_sentence_len" = Some avg
    ∧ compute_features is_word is_space text !! "sentence_burstiness" = Some burst
    ∧ ((2 ≤ length sentences)%nat → avg > 0 →
       avg = mean lens ∧ burst = sample_std lens / avg)
    ∧ (avg = 0 ∨ (length sentences < 2)%nat → burst = 0)
    ∧ (length sentences = 1%nat → burst = 0)
    ∧ ((∀ c, is_word c = true → is_space c = false) →
       avg = sum_float lens
             / INR (match sentences with [] => 1%nat | _ :: _ => length sentences end)).
Proof.
  intros sentences lens.
  set (sent_lens := map (λ s, length (simple_tokenize is_word is_space s))
                        sentences).
  assert (lens = map INR sent_lens) as Hlens.
  { symmetry. apply sent_lens_real. }
  assert (length sent_lens = length sentences) as Hlen.
  { apply length_map. }
  assert (∃ avg burst,
    compute_features is_word is_space text !! "avg_sentence_len" = Some avg
    ∧ compute_features is_word is_space text !! "sentence_burstiness" = Some burst
    ∧ ((2 ≤ length sentences)%nat → avg > 0 →
       avg = mean lens ∧ burst = sample_std lens / avg)
    ∧ (avg = 0 ∨ (length sentences < 2)%nat → burst = 0)
    ∧ ((∀ c, is_word c = true → is_space c = false) →
       avg = sum_float lens
             / INR (match sentences with [] => 1%nat | _ :: _ => length sentences end)))
    as Hmain.
  { destruct (decide (length (simple_tokenize is_word is_space text) = 0%nat))
      as [Hzero|Hne].
    - exists 0, 0. unfold compute_features.
      rewrite (compute_features_with_zero _ _ _ _ Hzero).
      split; [apply zero_features_values; unfold FEATURE_KEYS;
              rewrite !elem_of_cons; tauto|].
      split; [apply zero_features_values; unfold FEATURE_KEYS;
              rewrite !elem_of_cons; tauto|].
      split; [intros _ Hpos; lra|]. split; [done|].
      intros Hdisjoint.
      rewrite Hlens, <- INR_sum_list. unfold sent_lens, sentences.
      rewrite (no_token_sentence_lengths _ _ Hdisjoint _ Hzero).
      unfold Rdiv. simpl. by rewrite Rmult_0_l.
    - destruct (compute_features_sentence_stats is_word is_space
                  FORMAL_ENDINGS text Hne) as [Havg Hburst].
      fold sentences in Havg, Hburst. fold sent_lens in Havg, Hburst.
      eexists _, _. split; [exact Havg|]. split; [exact Hburst|].
      split; [|split].
      + intros Htwo Hpos.
        assert (match sentences with
                | [] => 1%nat
                | _ :: _ => length sentences
                end = length sentences) as Hn.
        { destruct sentences; [simpl in Htwo; lia | reflexivity]. }
        rewrite Hn in *.
        assert (INR (sum_list sent_lens) / INR (length sentences) = mean lens)
          as Hmean.
        { unfold mean. rewrite Hlens, length_map, Hlen, INR_sum_list.
          reflexivity. }
        split; [exact Hmean|].
        destruct (Rgt_dec _ 0) as [_|Hn0]; [|contradiction].
        destruct (decide (1 < length sent_lens)%nat) as [_|Hn1]; [|lia].
        rewrite Hmean. unfold sample_std. f_equal. f_equal. f_equal.
        * rewrite Hlens, map_map. reflexivity.
        * rewrite Hlens, length_map, minus_INR by lia. reflexivity.
      + intros [Hzero|Hfew].
        * rewrite Hzero. destruct (Rgt_dec 0 0); [lra | reflexivity].
        * destruct (decide (1 < length sent_lens)%nat) as [Hn1|_]; [lia|].
          destruct (Rgt_dec _ 0); [|reflexivity].
          unfold Rdiv. apply Rmult_0_l.
      + intros _. by rewrite Hlens, <- INR_sum_list. }
  destruct Hmain as (avg & burst & Havg & Hburst & Hmany & Hfew & Hmean).
  exists avg, burst. repeat (split; [assumption|]).
  split; [|exact Hmean].
  intros Hone. apply Hfew. right. lia.
Qed.

End FeatureClaims.

Section PipelineClaims.
Local Open Scope R_scope.

Lemma final_bounds ttr burst formal conn length repetition :
  0 <= final_of ttr burst formal conn length repetition <= 1.
Proof. apply clamp01_bounds. Qed.

(** C5: on a mapping with the seven FeatureSet keys, whatever their
    values, [score_ai_likelihood] returns a SubScoreSet whose five
    sub-scores and whose [ai_score] are in [0, 1]; and for every text (and
    every reading of the classes [\w] and [\s]) the handler returns a
    response whose [ai_score] is in [0, 1]. *)
Theorem C5_scores_in_unit_interval :
  (∀ features : gmap string R,
     is_feature_set features →
     ∃ scores,
       score_ai_likelihood features = Ok scores
       ∧ ∀ k, k ∈ UNIT_SCORE_KEYS → ∃ v, scores !! k = Some v ∧ 0 <= v <= 1)
  ∧ (∀ (is_word is_space : char → bool) (text : str),
       ∃ response,
         gpt_killer is_word is_space text = Ok response
         ∧ 0 <= ai_score response <= 1).
Proof.
  assert (∀ features : gmap string R,
     is_feature_set features →
     ∃ scores,
       score_ai_likelihood features = Ok scores
       ∧ ∀ k, k ∈ UNIT_SCORE_KEYS → ∃ v, scores !! k = Some v ∧ 0 <= v <= 1)
    as Hscorer.
  { intros features Hfs.
    destruct (feature_set_values _ Hfs)
      as (ttr & burst & formal & conn & length & repetition & scores
          & _ & _ & _ & _ & _ & _ & Hrun & H1 & H2 & H3 & H4 & H5 & _ & H7).
    exists scores. split; [exact Hrun|].
    intros k. unfold UNIT_SCORE_KEYS. rewrite !elem_of_cons, elem_of_nil.
    intros [->|[->|[->|[->|[->|[->|[]]]]]]]; eexists; (split; [eassumption|]).
    - apply ttr_score_bounds.
    - apply burstiness_score_bounds.
    - apply clamp01_bounds.
    - apply clamp01_bounds.
    - apply clamp01_bounds.
    - apply final_bounds. }
  split; [exact Hscorer|].
  intros is_word is_space text.
  destruct (gpt_killer_ok is_word is_space text)
    as (response & Hresp & Hrun & Hscore & _).
  exists response. split; [exact Hresp|].
  destruct (Hscorer _ (compute_features_is_feature_set is_word is_space text))
    as (scores & Hrun' & Hunit).
  destruct (Hunit "ai_score") as (v & Hv & Hbounds).
  { unfold UNIT_SCORE_KEYS. rewrite !elem_of_cons. tauto. }
  unfold ai_score_of, getitem in Hscore. rewrite Hrun' in Hscore.
  cbn [bind] in Hscore. rewrite Hv in Hscore. inversion Hscore. lra.
Qed.

(** C6: with the other features fixed, a larger [formal_ending_ratio]
    never gives a smaller [ai_score], and a larger [type_token_ratio], both
    values taken in [0.3, 0.8], never gives a larger [ai_score]. *)
Theorem C6_monotone (features : gmap string R) (a b : R) :
  is_feature_set features →
  a <= b →
  (∃ va vb,
     ai_score_of (<["formal_ending_ratio" := a]> features) = Ok va
     ∧ ai_score_of (<["formal_ending_ratio" := b]> features) = Ok vb
     ∧ va <= vb)
  ∧ (0.3 <= a → b <= 0.8 →
     ∃ va vb,
       ai_score_of (<["type_token_ratio" := a]> features) = Ok va
       ∧ ai_score_of (<["type_token_ratio" := b]> features) = Ok vb
       ∧ vb <= va).
Proof.
  intros Hfs Hab.
  destruct (feature_set_values _ Hfs)
    as (ttr & burst & formal & conn & length & repetition & scores
        & Httr & Hburst & Hformal & Hconn & Hlen & Hrep & _).
  split.
  - exists (final_of ttr burst a conn length repetition),
           (final_of ttr burst b conn length repetition).
    split; [|split].
    + apply ai_score_of_ok; by simplify_map_eq.
    + apply ai_score_of_ok; by simplify_map_eq.
    + by apply final_mono_formal.
  - intros _ _.
    exists (final_of a burst formal conn length repetition),
           (final_of b burst formal conn length repetition).
    split; [|split].
    + apply ai_score_of_ok; by simplify_map_eq.
    + apply ai_score_of_ok; by simplify_map_eq.
    + by apply final_antimono_ttr.
Qed.

(** C8: the [repetition_score] of a FeatureSet is
    [clamp01 (repetition_ratio / 0.2)]; it is 1 when [repetition_ratio] is
    exactly 0.2 and for every larger [repetition_ratio]. *)
Theorem C8_repetition_score (features : gmap string R) (repetition : R) :
  is_feature_set features →
  features !! "repetition_ratio" = Some repetition →
  ∃ scores,
    score_ai_likelihood features = Ok scores
    ∧ scores !! "repetition_score" = Some (clamp01 (repetition / 0.2))
    ∧ (repetition = 0.2 → scores !! "repetition_score" = Some 1.0)
    ∧ (repetition > 0.2 → scores !! "repetition_score" = Some 1.0).
Proof.
  intros Hfs Hrep.
  destruct (feature_set_values _ Hfs)
    as (ttr & burst & formal & conn & length & repetition' & scores
        & _ & _ & _ & _ & _ & Hrep' & Hrun & _ & _ & _ & _ & H5 & _).
  rewrite Hrep in Hrep'. inversion Hrep'; subst repetition'.
  exists scores. split; [exact Hrun|]. unfold repetition_score_of in H5.
  split; [exact H5|].
  split; intros Hr; rewrite H5; f_equal; rewrite clamp01_ge1; lra.
Qed.

(** C10: on a mapping with the seven FeatureSet keys, [ai_score_raw] is
    the combination of the five sub-scores, each in [0, 1], with the weights
    0.30, 0.20, 0.20, 0.15 and 0.15, which sum to 1; so it is in [0, 1]
    before any clamping, and when [length_tokens] is at least 30 the final
    [ai_score] is [ai_score_raw] itself. *)
Theorem C10_raw_score_in_unit_interval (features : gmap string R) :
  is_feature_set features →
  ∃ scores length s1 s2 s3 s4 s5 raw final,
    score_ai_likelihood features = Ok scores
    ∧ features !! "length_tokens" = Some length
    ∧ scores !! "ttr_score" = Some s1 ∧ 0 <= s1 <= 1
    ∧ scores !! "burstiness_score" = Some s2 ∧ 0 <= s2 <= 1
    ∧ scores !! "formal_score" = Some s3 ∧ 0 <= s3 <= 1
    ∧ scores !! "connectives_score" = Some s4 ∧ 0 <= s4 <= 1
    ∧ scores !! "repetition_score" = Some s5 ∧ 0 <= s5 <= 1
    ∧ scores !! "ai_score_raw" = Some raw
    ∧ scores !! "ai_score" = Some final
    ∧ raw = 0.30 * s1 + 0.20 * s2 + 0.20 * s3 + 0.15 * s4 + 0.15 * s5
    ∧ 0.30 + 0.20 + 0.20 + 0.15 + 0.15 = 1
    ∧ 0 <= raw <= 1
    ∧ (length >= 30 → final = raw).
Proof.
  intros Hfs.
  destruct (feature_set_values _ Hfs)
    as (ttr & burst & formal & conn & length & repetition & scores
        & _ & _ & _ & _ & Hlen & _ & Hrun & H1 & H2 & H3 & H4 & H5 & H6 & H7).
  exists scores, length. do 7 eexists.
  split; [exact Hrun|]. split; [exact Hlen|].
  split; [exact H1|]. split; [apply ttr_score_bounds|].
  split; [exact H2|]. split; [apply burstiness_score_bounds|].
  split; [exact H3|]. split; [apply clamp01_bounds|].
  split; [exact H4|]. split; [apply clamp01_bounds|].
  split; [exact H5|]. split; [apply clamp01_bounds|].
  split; [exact H6|]. split; [exact H7|].
  split; [reflexivity|]. split; [lra|].
  split; [apply raw_bounds|].
  intros Hlong. unfold final_of, penalty_of.
  destruct (Rlt_dec length 30); [lra|].
  rewrite Rplus_0_r. apply clamp01_id, raw_bounds.
Qed.

(** C9: each of the three 니다 entries of [FORMAL_ENDINGS] ends with one of
    the three short suffixes, so they never change which sentence is
    counted: the count over any list of sentences, and with it the result
    of [compute_features] (its [formal_ending_ratio] included), is the one
    obtained with the three suffixes 다. 다! 다? alone. *)
Theorem C9_formal_endings_redundant :
  Forall (λ fe, ∃ fe', fe' ∈ SHORT_ENDINGS ∧ fe' `suffix_of` fe) FORMAL_ENDINGS
  ∧ (∀ s : str, ends_with_any FORMAL_ENDINGS s = ends_with_any SHORT_ENDINGS s)
  ∧ (∀ sentences : list str,
       count_formal FORMAL_ENDINGS sentences = count_formal SHORT_ENDINGS sentences)
  ∧ (∀ (is_word is_space : char → bool) (text : str),
       compute_features is_word is_space text
       = compute_features_with is_word is_space SHORT_ENDINGS text
       ∧ compute_features is_word is_space text !! "formal_ending_ratio"
         = compute_features_with is_word is_space SHORT_ENDINGS text
             !! "formal_ending_ratio").
Proof.
  split.
  { unfold FORMAL_ENDINGS, SHORT_ENDINGS.
    apply Forall_forall. intros fe. rewrite !elem_of_cons, elem_of_nil.
    intros [->|[->|[->|[->|[->|[->|[]]]]]]].
    - exists [45796; 46]%N. split; [set_solver | by exists [45768%N]].
    - exists [45796; 33]%N. split; [set_solver | by exists [45768%N]].
    - exists [45796; 63]%N. split; [set_solver | by exists [45768%N]].
    - exists [45796; 46]%N. split; [set_solver | by exists []].
    - exists [45796; 33]%N. split; [set_solver | by exists []].
    - exists [45796; 63]%N. split; [set_solver | by exists []]. }
  split; [apply ends_with_any_short|].
  split; [apply count_formal_short|].
  intros is_word is_space text.
  assert (compute_features is_word is_space text
          = compute_features_with is_word is_space SHORT_ENDINGS text) as Heq.
  { unfold compute_features, compute_features_with. cbv zeta.
    by rewrite count_formal_short. }
  split; [exact Heq | by rewrite Heq].
Qed.

End PipelineClaims.

(** ** The claims at concrete inputs *)

Section Instances.
Local Open Scope R_scope.

(** Three sentences, two of them with a formal ending (one through a 니다
    entry, one through a short one), five tokens, one connective. *)
Example korean_text_features :
  split_sentences space_ascii korean_text
  = [ [51200; 45716; 32; 54617; 49373; 51077; 45768; 45796; 46];
      [46608; 54620; 32; 51339; 45796; 33];
      [45348] ]%N
  ∧ simple_tokenize word_ascii_hangul space_ascii korean_text
    = [ [51200; 45716]; [54617; 49373; 51077; 45768; 45796];
        [46608; 54620]; [51339; 45796]; [45348] ]%N
  ∧ count_formal FORMAL_ENDINGS (split_sentences space_ascii korean_text) = 2%nat
  ∧ filter (λ t, t ∈ KOREAN_CONNECTIVES)
           (simple_tokenize word_ascii_hangul space_ascii korean_text)
    = [ [46608; 54620] ]%N.
Proof. vm_compute. done. Qed.

Lemma punctuation_text_no_token :
  length (simple_tokenize word_ascii_hangul space_ascii punctuation_text) = 0%nat.
Proof. vm_compute. reflexivity. Qed.

(** C1, as stated, fails: the text [?! ...] has no token, and the scorer
    on its features yields [ai_score_raw] = 0.5 and [ai_score] = 0.6, not
    0.30 and 0.40: at burstiness 0 the burstiness sub-score is 1 and weighs
    0.20. *)
Lemma C1_zero_token_score_is_not_040 :
  length (simple_tokenize word_ascii_hangul space_ascii punctuation_text) = 0%nat
  ∧ ∃ scores,
      score_ai_likelihood
        (compute_features word_ascii_hangul space_ascii punctuation_text)
      = Ok scores
      ∧ scores !! "burstiness_score" = Some 1
      ∧ scores !! "ai_score_raw" = Some 0.5
      ∧ scores !! "ai_score" = Some 0.6
      ∧ scores !! "ai_score_raw" ≠ Some 0.30
      ∧ scores !! "ai_score" ≠ Some 0.40.
Proof.
  split; [apply punctuation_text_no_token|].
  destruct zero_features_scores as (scores & Hrun & _ & Hburst & Hraw & Hfinal).
  exists scores. unfold compute_features.
  rewrite (compute_features_with_zero _ _ _ _ punctuation_text_no_token).
  repeat (split; [assumption|]).
  rewrite Hraw, Hfinal. split; intros Heq; inversion Heq; lra.
Qed.

(** C1 (amended) on the text [?! ...]. *)
Lemma C1_zero_token_text_witness :
  length (simple_tokenize word_ascii_hangul space_ascii punctuation_text) = 0%nat
  ∧ compute_features word_ascii_hangul space_ascii punctuation_text = zero_features
  ∧ ∃ response,
      gpt_killer word_ascii_hangul space_ascii punctuation_text = Ok response
      ∧ ai_score response = 0.6
      ∧ label response = "UNCERTAIN"%string.
Proof.
  split; [vm_compute; reflexivity|].
  destruct (C1_zero_token_text word_ascii_hangul space_ascii punctuation_text)
    as (Hzero & _ & _ & _ & Hresp); [vm_compute; reflexivity|].
  split; [exact Hzero | exact Hresp].
Defined.

(** C2 (amended) on the example FeatureSet without [length_tokens], and
    without [avg_sentence_len]. *)
Lemma C2_missing_scorer_key_witness :
  (∃ k, k ∈ SCORER_KEYS
        ∧ delete "length_tokens" (example_features 20) !! k = None
        ∧ first_missing (delete "length_tokens" (example_features 20)) SCORER_KEYS
          = Some k
        ∧ score_ai_likelihood (delete "length_tokens" (example_features 20))
          = KeyError k)
  ∧ ∃ scores,
      score_ai_likelihood (delete "avg_sentence_len" (example_features 20))
      = Ok scores.
Proof.
  split.
  - apply (proj1 (C2_missing_scorer_key
                    (delete "length_tokens" (example_features 20)))
             "length_tokens").
    + unfold SCORER_KEYS. rewrite !elem_of_cons. tauto.
    + apply lookup_delete_eq.
  - apply (proj2 (C2_missing_scorer_key (example_features 20))).
    intros key Hkey.
    apply example_features_is_feature_set, scorer_keys_feature_keys, Hkey.
Defined.

(** C5 on the example FeatureSet and on the text [a b. c d e f.]. *)
Lemma C5_scores_in_unit_interval_witness :
  (∃ scores,
     score_ai_likelihood (example_features 20) = Ok scores
     ∧ ∀ k, k ∈ UNIT_SCORE_KEYS → ∃ v, scores !! k = Some v ∧ 0 <= v <= 1)
  ∧ ∃ response,
      gpt_killer word_ascii_hangul space_ascii two_sentence_text = Ok response
      ∧ 0 <= ai_score response <= 1.
Proof.
  split.
  - apply (proj1 C5_scores_in_unit_interval (example_features 20)).
    apply example_features_is_feature_set.
  - apply (proj2 C5_scores_in_unit_interval).
Defined.

(** C6 on the example FeatureSet, between the ratios 0.4 and 0.6. *)
Lemma C6_monotone_witness :
  (∃ va vb,
     ai_score_of (<["formal_ending_ratio" := 0.4]> (example_features 20)) = Ok va
     ∧ ai_score_of (<["formal_ending_ratio" := 0.6]> (example_features 20)) = Ok vb
     ∧ va <= vb)
  ∧ ∃ va vb,
      ai_score_of (<["type_token_ratio" := 0.4]> (example_features 20)) = Ok va
      ∧ ai_score_of (<["type_token_ratio" := 0.6]> (example_features 20)) = Ok vb
      ∧ vb <= va.
Proof.
  destruct (C6_monotone (example_features 20) 0.4 0.6) as [Hformal Httr].
  - apply example_features_is_feature_set.
  - lra.
  - split; [exact Hformal | apply Httr; lra].
Defined.

(** C10 on the example FeatureSet (40 tokens, so no penalty). *)
Lemma C10_raw_score_in_unit_interval_witness :
  ∃ scores raw,
    score_ai_likelihood (example_features 20) = Ok scores
    ∧ scores !! "ai_score_raw" = Some raw
    ∧ scores !! "ai_score" = Some raw
    ∧ 0 <= raw <= 1.
Proof.
  destruct (C10_raw_score_in_unit_interval (example_features 20))
    as (scores & length & s1 & s2 & s3 & s4 & s5 & raw & final
        & Hrun & Hlen & _ & _ & _ & _ & _ & _ & _ & _ & _ & _
        & Hraw & Hfinal & _ & _ & Hbounds & Hlong).
  - apply example_features_is_feature_set.
  - exists scores, raw. split; [exact Hrun|]. split; [exact Hraw|].
    split; [|exact Hbounds].
    rewrite Hfinal. f_equal. apply Hlong.
    assert (example_features 20 !! "length_tokens" = Some 40) as Hforty.
    { unfold example_features. literal_lookup. }
    rewrite Hforty in Hlen. inversion Hlen. lra.
Defined.

Lemma two_sentence_text_sentences :
  split_sentences space_ascii two_sentence_text
  = [ [97; 32; 98; 46]; [99; 32; 100; 32; 101; 32; 102; 46] ]%N.
Proof. vm_compute. reflexivity. Qed.

Lemma two_sentence_text_lens :
  map (λ s, length (simple_tokenize word_ascii_hangul space_ascii s))
      (split_sentences space_ascii two_sentence_text)
  = [2; 4]%nat.
Proof. vm_compute. reflexivity. Qed.

Lemma two_sentence_text_tokens :
  length (simple_tokenize word_ascii_hangul space_ascii two_sentence_text) ≠ 0%nat.
Proof. vm_compute. discriminate. Qed.

Lemma word_ascii_hangul_not_space (c : char) :
  word_ascii_hangul c = true → space_ascii c = false.
Proof.
  intros Hword. apply not_true_is_false. intros Hspace.
  unfold word_ascii_hangul, space_ascii in *.
  repeat first [ rewrite orb_true_iff in Hword | rewrite andb_true_iff in Hword
               | rewrite N.leb_le in Hword | rewrite N.eqb_eq in Hword ].
  repeat first [ rewrite orb_true_iff in Hspace | rewrite andb_true_iff in Hspace
               | rewrite N.leb_le in Hspace ].
  lia.
Qed.

(** C7 on the text [a b. c d e f.]: two sentences, of 2 and of 4 tokens. *)
Lemma C7_sentence_burstiness_witness :
  ∃ avg burst,
    compute_features word_ascii_hangul space_ascii two_sentence_text
      !! "avg_sentence_len" = Some avg
    ∧ compute_features word_ascii_hangul space_ascii two_sentence_text
        !! "sentence_burstiness" = Some burst
    ∧ (2 ≤ length (split_sentences space_ascii two_sentence_text))%nat
    ∧ avg > 0
    ∧ avg = mean (map INR [2; 4]%nat)
    ∧ burst = sample_std (map INR [2; 4]%nat) / avg
    ∧ avg = sum_float (map INR [2; 4]%nat) / INR 2.
Proof.
  destruct (C7_sentence_burstiness word_ascii_hangul space_ascii two_sentence_text)
    as (avg & burst & Havg & Hburst & Hmany & _ & _ & Hmean).
  rewrite <- sent_lens_real, two_sentence_text_lens in Hmany, Hmean.
  rewrite two_sentence_text_sentences in Hmean.
  destruct (compute_features_sentence_stats word_ascii_hangul space_ascii
              FORMAL_ENDINGS two_sentence_text two_sentence_text_tokens)
    as [Havg' _].
  rewrite two_sentence_text_lens, two_sentence_text_sentences in Havg'.
  unfold compute_features in Havg. rewrite Havg' in Havg.
  assert (avg > 0) as Hpos.
  { inversion Havg. simpl. lra. }
  assert (2 ≤ length (split_sentences space_ascii two_sentence_text))%nat as Htwo.
  { rewrite two_sentence_text_sentences. simpl. lia. }
  exists avg, burst. unfold compute_features at 1. rewrite Havg'.
  split; [exact Havg|]. split; [exact Hburst|].
  split; [exact Htwo|]. split; [exact Hpos|].
  split; [exact (proj1 (Hmany Htwo Hpos))|].
  split; [exact (proj2 (Hmany Htwo Hpos))|].
  exact (Hmean word_ascii_hangul_not_space).
Defined.

Lemma five_token_text_tokens :
  simple_tokenize word_ascii_hangul space_ascii five_token_text
  = [ [97]; [98]; [99]; [100]; [101] ]%N.
Proof. vm_compute. reflexivity. Qed.

Lemma five_token_text_most_common :
  most_common_1 (Counter [ [97]; [98]; [99]; [100]; [101] ]%N) = [([97%N], 1%nat)].
Proof. vm_compute. reflexivity. Qed.

(** One token out of five: the repetition ratio is exactly 20%. *)
Lemma five_token_text_repetition :
  compute_features word_ascii_hangul space_ascii five_token_text
    !! "repetition_ratio" = Some 0.2.
Proof.
  unfold compute_features. rewrite compute_features_repetition.
  - rewrite five_token_text_tokens, five_token_text_most_common.
    f_equal. simpl. lra.
  - rewrite five_token_text_tokens. discriminate.
Qed.

(** C8 on the features of the text [a b c d e]. *)
Lemma C8_repetition_score_witness :
  ∃ scores,
    compute_features word_ascii_hangul space_ascii five_token_text
      !! "repetition_ratio" = Some 0.2
    ∧ score_ai_likelihood
        (compute_features word_ascii_hangul space_ascii five_token_text)
      = Ok scores
    ∧ scores !! "repetition_score" = Some 1.0.
Proof.
  destruct (C8_repetition_score
              (compute_features word_ascii_hangul space_ascii five_token_text) 0.2)
    as (scores & Hrun & _ & Hexact & _).
  - apply compute_features_is_feature_set.
  - apply five_token_text_repetition.
  - exists scores. split; [apply five_token_text_repetition|].
    split; [exact Hrun|]. apply Hexact. reflexivity.
Defined.

End Instances.

(** * Further properties of the code *)

(** ** Lemmas on [str.strip] *)

Section StripLemmas.

Variable is_space : char → bool.

Lemma lstrip_split (s : str) :
  ∃ k, s = k ++ lstrip is_space s ∧ Forall (λ c, is_space c = true) k.
Proof.
  induction s as [|c s (k & Hs & Hk)]; simpl.
  - exists []. split; [reflexivity | constructor].
  - destruct (is_space c) eqn:Hc.
    + exists (c :: k). split; [simpl; by rewrite <- Hs | by constructor].
    + exists []. split; [reflexivity | constructor].
Qed.

Lemma lstrip_head (s : str) c r :
  lstrip is_space s = c :: r → is_space c = false.
Proof.
  induction s as [|d s IH]; simpl; [discriminate|].
  destruct (is_space d) eqn:Hd; [exact IH|]. intros H. by inversion H; subst.
Qed.

Lemma lstrip_cons_false c (s : str) :
  is_space c = false → lstrip is_space (c :: s) = c :: s.
Proof. intros Hc. simpl. by rewrite Hc. Qed.

Lemma lstrip_all_space (s : str) :
  Forall (λ c, is_space c = true) s → lstrip is_space s = [].
Proof. induction 1 as [|c s Hc _ IH]; simpl; [done|]. by rewrite Hc. Qed.

(** [strip] removes a run of whitespace at each end, and nothing else. *)
Lemma strip_decompose (s : str) :
  ∃ k1 k2, s = k1 ++ strip is_space s ++ k2
           ∧ Forall (λ c, is_space c = true) k1
           ∧ Forall (λ c, is_space c = true) k2.
Proof.
  destruct (lstrip_split s) as (k1 & Hs & Hk1).
  destruct (lstrip_split (rev (lstrip is_space s))) as (k & Hrev & Hk).
  exists k1, (rev k). unfold strip. split; [|split; [done|]].
  - rewrite <- rev_app_distr, <- Hrev, rev_involutive. exact Hs.
  - apply Forall_forall. intros c Hc. rewrite Forall_forall in Hk.
    apply Hk. by apply list_elem_of_In, in_rev, list_elem_of_In.
Qed.

Lemma strip_first (s : str) c r :
  strip is_space s = c :: r → is_space c = false.
Proof.
  intros Hstrip.
  destruct (lstrip_split (rev (lstrip is_space s))) as (k & Hrev & _).
  apply (f_equal (@rev _)) in Hrev.
  rewrite rev_involutive, rev_app_distr in Hrev.
  fold (strip is_space s) in Hrev. rewrite Hstrip in Hrev.
  simpl in Hrev. by apply lstrip_head in Hrev.
Qed.

Lemma strip_last (s : str) c r :
  strip is_space s = r ++ [c] → is_space c = false.
Proof.
  unfold strip. intros Hstrip.
  apply (f_equal (@rev _)) in Hstrip.
  rewrite rev_involutive, rev_app_distr in Hstrip. simpl in Hstrip.
  by apply lstrip_head in Hstrip.
Qed.

Lemma strip_fixed (s : str) :
  (∀ c r, s = c :: r → is_space c = false) →
  (∀ c r, s = r ++ [c] → is_space c = false) →
  strip is_space s = s.
Proof.
  intros Hfirst Hlast. destruct s as [|c s]; [reflexivity|].
  unfold strip. rewrite lstrip_cons_false by (by apply (Hfirst c s)).
  destruct (rev (c :: s)) as [|d r] eqn:Hrev.
  { apply (f_equal (@length _)) in Hrev. rewrite length_rev in Hrev.
    discriminate Hrev. }
  rewrite lstrip_cons_false.
  - rewrite <- Hrev. apply rev_involutive.
  - apply (Hlast d (rev r)).
    rewrite <- (rev_involutive (c :: s)), Hrev. reflexivity.
Qed.

Lemma strip_idempotent (s : str) :
  strip is_space (strip is_space s) = strip is_space s.
Proof.
  apply strip_fixed.
  - intros c r. apply strip_first.
  - intros c r. apply strip_last.
Qed.

Lemma strip_all_space (s : str) :
  Forall (λ c, is_space c = true) s → strip is_space s = [].
Proof. intros Hs. unfold strip. by rewrite (lstrip_all_space s Hs). Qed.

End StripLemmas.

(** ** Lemmas on the request validator *)

Section ValidationLemmas.
Local Open Scope R_scope.

Variable is_space : char → bool.

Lemma sum_list_ones {A} (l : list A) : sum_list (map (λ _, 1%nat) l) = length l.
Proof. induction l as [|x l IH]; simpl; [reflexivity | by rewrite IH]. Qed.

Lemma ratio_below_080 (k n : nat) :
  (0 < n)%nat → (INR k / INR n < 0.8 ↔ (5 * k < 4 * n)%nat).
Proof.
  intros Hn. apply lt_INR in Hn. simpl in Hn.
  assert (INR k = INR k / INR n * INR n) as Hk by (field; lra).
  split.
  - intros Hlt. apply INR_lt. rewrite !mult_INR. simpl. nra.
  - intros Hlt. apply lt_INR in Hlt. rewrite !mult_INR in Hlt. simpl in Hlt.
    nra.
Qed.

(** A stripped text that is not empty keeps a character after the
    whitespace is filtered out. *)
Lemma stripped_not_nil (v : str) :
  strip is_space v ≠ [] →
  filter (λ ch, is_space ch = false) (strip is_space v) ≠ [].
Proof.
  intros Hne. destruct (strip is_space v) as [|c r] eqn:Hstrip; [done|].
  rewrite filter_cons_True by (by apply (strip_first is_space v c r)).
  discriminate.
Qed.

(** The three outcomes of [text_validate]. *)
Lemma text_validate_outcome (v : str) :
  let t := strip is_space v in
  let stripped := filter (λ ch, is_space ch = false) t in
  let korean := filter (λ ch, is_hangul ch = true) stripped in
  ((length t ≤ 300)%nat ∧ text_validate is_space v = ValueError TooShort)
  ∨ ((300 < length t)%nat ∧ (5 * length korean < 4 * length stripped)%nat
     ∧ text_validate is_space v = ValueError NotKorean)
  ∨ ((300 < length t)%nat ∧ (4 * length stripped ≤ 5 * length korean)%nat
     ∧ text_validate is_space v = Valid t).
Proof.
  cbv zeta. unfold text_validate. cbv zeta.
  destruct (decide (length (strip is_space v) ≤ 300)%nat) as [Hshort|Hlong];
    [by left|].
  right.
  assert (filter (λ ch, is_space ch = false) (strip is_space v) ≠ []) as Hne.
  { apply stripped_not_nil. intros Hnil. rewrite Hnil in Hlong. simpl in Hlong. lia. }
  destruct (decide _) as [Hnil|_]; [contradiction|].
  rewrite sum_list_ones.
  assert (0 < length (filter (λ ch, is_space ch = false) (strip is_space v)))%nat
    as Hpos.
  { destruct (filter _ (strip is_space v)); [done | simpl; lia]. }
  destruct (Rlt_dec _ 0.8) as [Hlt|Hge].
  - left. split; [lia|]. split; [|reflexivity].
    by apply ratio_below_080.
  - right. split; [lia|]. split; [|reflexivity].
    apply Nat.nlt_ge. intros Hlt. apply Hge. by apply ratio_below_080.
Qed.

End ValidationLemmas.

Section ValidationProperties.
Local Open Scope R_scope.

(** X1: [text_validate] works on the stripped text and has exactly three
    outcomes: the error "too short" when the stripped text has 300
    characters or fewer; otherwise the error "Korean only" when fewer than
    80% of its non-whitespace characters are Hangul syllables; otherwise
    the stripped text itself.  The error "no valid character" is never
    raised. *)
Theorem X1_text_validate_outcomes (is_space : char → bool) (v : str) :
  let t := strip is_space v in
  let stripped := filter (λ ch, is_space ch = false) t in
  let korean := filter (λ ch, is_hangul ch = true) stripped in
  ((length t ≤ 300)%nat ∧ text_validate is_space v = ValueError TooShort)
  ∨ ((300 < length t)%nat ∧ (5 * length korean < 4 * length stripped)%nat
     ∧ text_validate is_space v = ValueError NotKorean)
  ∨ ((300 < length t)%nat ∧ (4 * length stripped ≤ 5 * length korean)%nat
     ∧ text_validate is_space v = Valid t).
Proof. apply text_validate_outcome. Qed.

Lemma text_validate_Valid (is_space : char → bool) (v t : str) :
  text_validate is_space v = Valid t →
  t = strip is_space v
  ∧ (300 < length t)%nat
  ∧ (4 * length (filter (λ ch, is_space ch = false) t)
     ≤ 5 * length (filter (λ ch, is_hangul ch = true)
                          (filter (λ ch, is_space ch = false) t)))%nat.
Proof.
  intros Hvalid.
  destruct (text_validate_outcome is_space v)
    as [[_ H]|[(_ & _ & H)|(Hlong & Hratio & H)]];
    rewrite H in Hvalid; try discriminate.
  inversion Hvalid; subst t. done.
Qed.

(** X2: a text that [text_validate] returns is already stripped and longer
    than 300 characters, and validating it again returns it unchanged. *)
Theorem X2_text_validate_idempotent (is_space : char → bool) (v t : str) :
  text_validate is_space v = Valid t →
  t = strip is_space v
  ∧ strip is_space t = t
  ∧ (300 < length t)%nat
  ∧ text_validate is_space t = Valid t.
Proof.
  intros Hvalid.
  destruct (text_validate_Valid is_space v t Hvalid) as (Ht & Hlong & Hratio).
  assert (strip is_space t = t) as Hfixed.
  { rewrite Ht. apply strip_idempotent. }
  repeat (split; [assumption|]).
  destruct (text_validate_outcome is_space t)
    as [[Hshort _]|[(_ & Hlow & _)|(_ & _ & H)]];
    cbv zeta in *; rewrite ?Hfixed in *; [lia | lia | exact H].
Qed.

(** X3: when Hangul syllables are word characters and no word character is
    whitespace, a text that [text_validate] returns has at least one token:
    [compute_features] does not take its early return on it, and its
    [length_tokens] is the positive number of its tokens. *)
Theorem X3_validated_text_has_token (is_word is_space : char → bool) (v t : str) :
  (∀ c, is_word c = true → is_space c = false) →
  (∀ c, is_hangul c = true → is_word c = true) →
  text_validate is_space v = Valid t →
  (1 ≤ length (simple_tokenize is_word is_space t))%nat
  ∧ compute_features is_word is_space t !! "length_tokens"
    = Some (INR (length (simple_tokenize is_word is_space t)))
  ∧ compute_features is_word is_space t ≠ zero_features.
Proof.
  intros Hdisjoint Hhangul Hvalid.
  destruct (text_validate_Valid is_space v t Hvalid) as (Ht & Hlong & Hratio).
  assert (1 ≤ length (simple_tokenize is_word is_space t))%nat as Htokens.
  { assert (filter (λ ch, is_space ch = false) t ≠ []) as Hne.
    { rewrite Ht. apply stripped_not_nil. rewrite <- Ht.
      intros Hnil. rewrite Hnil in Hlong. simpl in Hlong. lia. }
    destruct (filter (λ ch, is_hangul ch = true)
                     (filter (λ ch, is_space ch = false) t))
      as [|c korean] eqn:Hkorean.
    { simpl in Hratio. destruct (filter _ t); [done | simpl in Hratio; lia]. }
    assert (c ∈ t ∧ is_hangul c = true) as [Hc Hch].
    { assert (c ∈ filter (λ ch, is_hangul ch = true)
                         (filter (λ ch, is_space ch = false) t)) as Hin.
      { rewrite Hkorean. by left. }
      apply list_elem_of_filter in Hin as [Hch Hin].
      apply list_elem_of_filter in Hin as [_ Hin]. done. }
    destruct (simple_tokenize is_word is_space t) eqn:Htok; [|simpl; lia].
    rewrite (simple_tokenize_findall _ _ Hdisjoint) in Htok.
    apply findall_word_nil in Htok as [_ Hnone].
    rewrite Forall_forall in Hnone. specialize (Hnone c Hc).
    rewrite (Hhangul c Hch) in Hnone. discriminate. }
  assert (compute_features is_word is_space t !! "length_tokens"
          = Some (INR (length (simple_tokenize is_word is_space t)))) as Hlen.
  { unfold compute_features, compute_features_with. cbv zeta.
    destruct (decide _) as [Hzero|_]; [lia|]. literal_lookup. }
  split; [exact Htokens|]. split; [exact Hlen|].
  intros Hzero. rewrite Hzero in Hlen.
  rewrite (zero_features_values "length_tokens") in Hlen.
  - inversion Hlen as [Hinr]. apply le_INR in Htokens. simpl in Htokens. lra.
  - unfold FEATURE_KEYS. rewrite !elem_of_cons. tauto.
Qed.

End ValidationProperties.

(** ** Lemmas on the tokenizer *)

Section TokenizerLemmas.
Local Open Scope R_scope.

Variable is_word : char → bool.
Variable is_space : char → bool.

(** The runs found, put end to end, are the word characters of the text
    in their order (after what the current run holds). *)
Lemma findall_word_concat (text run : str) :
  concat (findall_word is_word text run)
  = rev run ++ filter (λ c, is_word c = true) text.
Proof.
  revert run. induction text as [|c text IH]; intros run; simpl.
  - destruct run as [|d run]; simpl; by rewrite ?app_nil_r.
  - destruct (is_word c) eqn:Hc.
    + rewrite IH, filter_cons_True by done. simpl. by rewrite <- app_assoc.
    + rewrite filter_cons_False by congruence.
      destruct run as [|d run]; simpl; by rewrite IH.
Qed.

(** A character that is not a word character ends the current run. *)
Lemma findall_word_app_sep (a b : str) c run :
  is_word c = false →
  findall_word is_word (a ++ c :: b) run
  = findall_word is_word a run ++ findall_word is_word b [].
Proof.
  intros Hc. revert run. induction a as [|d a IH]; intros run; simpl.
  - rewrite Hc. by destruct run.
  - destruct (is_word d); [apply IH|].
    destruct run; simpl; by rewrite IH.
Qed.

Lemma findall_word_all_word (text run : str) :
  Forall (λ c, is_word c = true) text →
  run ≠ [] ∨ text ≠ [] →
  findall_word is_word text run = [rev run ++ text].
Proof.
  intros Hword. revert run.
  induction Hword as [|c text Hc _ IH]; intros run Hne; simpl.
  - destruct run; [by destruct Hne | by rewrite app_nil_r].
  - rewrite Hc, IH by (by left). simpl. by rewrite <- app_assoc.
Qed.

Lemma simple_tokenize_app_sep (a b : str) c :
  is_word c = false →
  simple_tokenize is_word is_space (a ++ c :: b)
  = simple_tokenize is_word is_space a ++ simple_tokenize is_word is_space b.
Proof.
  intros Hc. unfold simple_tokenize.
  by rewrite (findall_word_app_sep a b c [] Hc), filter_app.
Qed.

(** The features on the main path of [compute_features] are not those of
    the early return. *)
Lemma compute_features_length_tokens endings text :
  length (simple_tokenize is_word is_space text) ≠ 0%nat →
  compute_features_with is_word is_space endings text !! "length_tokens"
  = Some (INR (length (simple_tokenize is_word is_space text))).
Proof.
  intros Hne. unfold compute_features_with. cbv zeta.
  destruct (decide _) as [|_]; [contradiction|]. literal_lookup.
Qed.

Lemma compute_features_not_zero text :
  length (simple_tokenize is_word is_space text) ≠ 0%nat →
  compute_features is_word is_space text ≠ zero_features.
Proof.
  intros Hne Hzero.
  pose proof (compute_features_length_tokens FORMAL_ENDINGS text Hne) as Hlen.
  fold (compute_features is_word is_space text) in Hlen.
  rewrite Hzero, (zero_features_values "length_tokens") in Hlen.
  - inversion Hlen as [Hinr]. symmetry in Hinr.
    apply (INR_eq _ 0) in Hinr. contradiction.
  - unfold FEATURE_KEYS. rewrite !elem_of_cons. tauto.
Qed.

End TokenizerLemmas.

Section TokenizerProperties.
Local Open Scope R_scope.

(** X4: when no word character is whitespace, every token of
    [simple_tokenize] is a non-empty run of word characters, and the tokens
    put end to end are exactly the word characters of the text, in their
    order: no word character is dropped, repeated or moved. *)
Theorem X4_tokens_keep_word_characters (is_word is_space : char → bool) (text : str) :
  (∀ c, is_word c = true → is_space c = false) →
  Forall (λ t, t ≠ [] ∧ Forall (λ c, is_word c = true) t)
         (simple_tokenize is_word is_space text)
  ∧ concat (simple_tokenize is_word is_space text)
    = filter (λ c, is_word c = true) text.
Proof.
  intros Hdisjoint. rewrite (simple_tokenize_findall _ _ Hdisjoint).
  split.
  - apply findall_word_tokens. constructor.
  - apply (findall_word_concat is_word text []).
Qed.

(** X5: tokens are the maximal runs of word characters.  A character that
    is not a word character separates: the tokens of [a ++ c :: b] are the
    tokens of [a] followed by the tokens of [b]; and when no word character
    is whitespace, a non-empty text of word characters only is one token,
    the whole text. *)
Theorem X5_tokens_are_maximal_runs (is_word is_space : char → bool) :
  (∀ c, is_word c = true → is_space c = false) →
  (∀ (a b : str) c,
     is_word c = false →
     simple_tokenize is_word is_space (a ++ c :: b)
     = simple_tokenize is_word is_space a ++ simple_tokenize is_word is_space b)
  ∧ (∀ text : str,
       text ≠ [] → Forall (λ c, is_word c = true) text →
       simple_tokenize is_word is_space text = [text]).
Proof.
  intros Hdisjoint. split.
  - intros a b c Hc. by apply simple_tokenize_app_sep.
  - intros text Hne Hword.
    rewrite (simple_tokenize_findall _ _ Hdisjoint).
    rewrite (findall_word_all_word is_word text [] Hword); [done | by right].
Qed.

(** X6: when no word character is whitespace, a text has no token exactly
    when it has no word character, and [compute_features] takes its early
    return (the all-zero FeatureSet) on these texts and on no other. *)
Theorem X6_early_return_iff_no_word_character
    (is_word is_space : char → bool) (text : str) :
  (∀ c, is_word c = true → is_space c = false) →
  (simple_tokenize is_word is_space text = []
   ↔ Forall (λ c, is_word c = false) text)
  ∧ (compute_features is_word is_space text = zero_features
     ↔ Forall (λ c, is_word c = false) text).
Proof.
  intros Hdisjoint.
  assert (simple_tokenize is_word is_space text = []
          ↔ Forall (λ c, is_word c = false) text) as Hiff.
  { rewrite (simple_tokenize_findall _ _ Hdisjoint). split.
    - intros H. by apply findall_word_nil in H as [_ H].
    - apply findall_word_no_word. }
  split; [exact Hiff|]. rewrite <- Hiff. split.
  - intros Hzero.
    destruct (simple_tokenize is_word is_space text) as [|t tokens] eqn:Htok;
      [reflexivity|].
    exfalso. apply (compute_features_not_zero is_word is_space text); [|exact Hzero].
    rewrite Htok. discriminate.
  - intros Hnil. apply compute_features_with_zero. by rewrite Hnil.
Qed.

End TokenizerProperties.

(** ** Lemmas on the sentence splitter *)

Section SplitterLemmas.

Variable is_space : char → bool.

(** No piece holds a line break. *)
Lemma re_split_no_newline (text : str) prev st piece s :
  s ∈ re_split is_space text prev st piece → 10%N ∉ piece → 10%N ∉ s.
Proof.
  revert prev st piece.
  induction text as [|c text IH]; intros prev st piece; simpl.
  - rewrite elem_of_cons, elem_of_nil. intros [->|[]] Hpiece Hin.
    apply Hpiece. by apply list_elem_of_In, in_rev, list_elem_of_In.
  - assert (∀ prev' st',
              s ∈ rev piece :: re_split is_space text prev' st' [] →
              10%N ∉ piece → 10%N ∉ s) as Hcut.
    { intros prev' st'. rewrite elem_of_cons. intros [->|Hs] Hpiece.
      - intros Hin. apply Hpiece.
        by apply list_elem_of_In, in_rev, list_elem_of_In.
      - apply (IH _ _ _ Hs). apply not_elem_of_nil. }
    destruct (continues is_space st c); [apply IH|].
    destruct (lookbehind_terminal prev && is_space c); [apply Hcut|].
    destruct (c =? 10)%N eqn:Hc; [apply Hcut|].
    intros Hs Hpiece. apply (IH _ _ _ Hs).
    rewrite elem_of_cons. intros [Heq|Hin]; [|contradiction].
    subst c. discriminate Hc.
Qed.

(** Every piece is a contiguous part of the text. *)
Lemma re_split_infix (text : str) prev st piece s :
  scanner_ok st piece →
  s ∈ re_split is_space text prev st piece →
  ∃ a b, rev piece ++ text = a ++ s ++ b.
Proof.
  revert prev st piece.
  induction text as [|c text IH]; intros prev st piece Hok; simpl.
  - rewrite elem_of_cons, elem_of_nil. intros [->|[]].
    exists [], []. by rewrite !app_nil_r.
  - assert (∀ prev' st',
              s ∈ rev piece :: re_split is_space text prev' st' [] →
              ∃ a b, rev piece ++ c :: text = a ++ s ++ b) as Hcut.
    { intros prev' st'. rewrite elem_of_cons. intros [->|Hs].
      - by exists [], (c :: text).
      - destruct (IH _ _ [] (or_intror eq_refl) Hs) as (a & b & Heq).
        simpl in Heq. exists (rev piece ++ c :: a), b.
        rewrite Heq, <- app_assoc. reflexivity. }
    destruct (continues is_space st c) eqn:Hcont.
    { destruct Hok as [->| ->]; [discriminate Hcont|].
      intros Hs. destruct (IH _ _ [] (or_intror eq_refl) Hs) as (a & b & Heq).
      simpl in *. exists (c :: a), b. by rewrite Heq. }
    destruct (lookbehind_terminal prev && is_space c); [apply Hcut|].
    destruct (c =? 10)%N; [apply Hcut|].
    intros Hs. destruct (IH _ _ (c :: piece) (or_introl eq_refl) Hs)
      as (a & b & Heq).
    exists a, b. rewrite <- Heq. simpl. by rewrite <- app_assoc.
Qed.

(** Without a line break and without a terminal mark before whitespace
    nothing is split off. *)
Lemma re_split_no_separator (text : str) prev piece :
  10%N ∉ text →
  (∀ d r, text = d :: r → lookbehind_terminal prev = true → is_space d = false) →
  (∀ a c d b, text = a ++ c :: d :: b → is_terminal c = true → is_space d = false) →
  re_split is_space text prev Seek piece = [rev piece ++ text].
Proof.
  revert prev piece.
  induction text as [|c text IH]; intros prev piece Hnl Hfirst Hpairs; simpl.
  - by rewrite app_nil_r.
  - assert (lookbehind_terminal prev && is_space c = false) as ->.
    { destruct (lookbehind_terminal prev) eqn:Hprev; [|reflexivity].
      simpl. by apply (Hfirst c text). }
    assert ((c =? 10)%N = false) as ->.
    { apply N.eqb_neq. intros ->. apply Hnl. by left. }
    rewrite IH.
    + simpl. by rewrite <- app_assoc.
    + intros Hin. apply Hnl. by right.
    + intros d r -> Hc. simpl in Hc. by apply (Hpairs [] c d r).
    + intros a x d b -> Hx. by apply (Hpairs (c :: a) x d b).
Qed.

Lemma split_sentences_raw (text s : str) :
  s ∈ split_sentences is_space text →
  ∃ raw, raw ∈ re_split is_space text None Seek []
         ∧ s = strip is_space raw ∧ strip is_space raw ≠ [].
Proof.
  unfold split_sentences. intros Hs.
  apply list_elem_of_In, in_map_iff in Hs as (raw & <- & Hraw).
  apply list_elem_of_In, list_elem_of_filter in Hraw as [Hne Hraw].
  by exists raw.
Qed.

End SplitterLemmas.

Section SplitterProperties.

(** X7: every sentence of [split_sentences] is non-empty, neither starts
    nor ends with a whitespace character (stripping it again changes
    nothing), holds no line break, and is a contiguous part of the text. *)
Theorem X7_sentence_shape (is_space : char → bool) (text s : str) :
  s ∈ split_sentences is_space text →
  s ≠ []
  ∧ strip is_space s = s
  ∧ (∀ c r, s = c :: r → is_space c = false)
  ∧ (∀ c r, s = r ++ [c] → is_space c = false)
  ∧ (10%N ∉ s)
  ∧ (∃ a b, text = a ++ s ++ b).
Proof.
  intros Hs.
  destruct (split_sentences_raw is_space text s Hs) as (raw & Hraw & -> & Hne).
  split; [exact Hne|].
  split; [apply strip_idempotent|].
  split; [intros c r; apply strip_first|].
  split; [intros c r; apply strip_last|].
  split.
  - intros Hin. apply strip_elem in Hin.
    apply (re_split_no_newline is_space text None Seek [] raw Hraw);
      [apply not_elem_of_nil | exact Hin].
  - destruct (re_split_infix is_space text None Seek [] raw
                (or_introl eq_refl) Hraw) as (a & b & Htext).
    destruct (strip_decompose is_space raw) as (k1 & k2 & Hdec & _).
    simpl in Htext. exists (a ++ k1), (k2 ++ b).
    rewrite Htext. rewrite Hdec at 1. by rewrite <- !app_assoc.
Qed.

(** X8: a text with no line break and with no [.], [!] or [?] directly
    before a whitespace character is not split: it has one sentence, the
    stripped text, or none when stripping leaves nothing. *)
Theorem X8_text_without_separator (is_space : char → bool) (text : str) :
  10%N ∉ text →
  (∀ a c d b, text = a ++ c :: d :: b → is_terminal c = true → is_space d = false) →
  split_sentences is_space text
  = if decide (strip is_space text = []) then [] else [strip is_space text].
Proof.
  intros Hnl Hpairs. unfold split_sentences.
  rewrite (re_split_no_separator is_space text None [] Hnl); [|done|exact Hpairs].
  simpl. destruct (decide (strip is_space text = [])) as [Hnil|Hne].
  - by rewrite filter_cons_False by (by intros H).
  - by rewrite filter_cons_True.
Qed.

End SplitterProperties.

(** ** Tokens of the sentences and tokens of the text *)

Section SentenceTokens.
Local Open Scope R_scope.

Variable is_word : char → bool.
Variable is_space : char → bool.
Hypothesis word_not_space : ∀ c, is_word c = true → is_space c = false.
Hypothesis newline_not_word : is_word 10%N = false.

Lemma space_not_word c : is_space c = true → is_word c = false.
Proof.
  intros Hc. destruct (is_word c) eqn:Hw; [|reflexivity].
  rewrite (word_not_space c Hw) in Hc. discriminate.
Qed.

Lemma findall_word_skip_prefix (k x : str) :
  Forall (λ c, is_word c = false) k →
  findall_word is_word (k ++ x) [] = findall_word is_word x [].
Proof. induction 1 as [|c k Hc _ IH]; simpl; [done|]. by rewrite Hc. Qed.

Lemma findall_word_skip_suffix (k x : str) :
  Forall (λ c, is_word c = false) k →
  findall_word is_word (x ++ k) [] = findall_word is_word x [].
Proof.
  intros Hk. destruct Hk as [|c k Hc Hk]; [by rewrite app_nil_r|].
  rewrite (findall_word_app_sep is_word x k c [] Hc).
  by rewrite (findall_word_no_word is_word k Hk), app_nil_r.
Qed.

Lemma findall_word_strip (s : str) :
  findall_word is_word (strip is_space s) []
  = findall_word is_word s [].
Proof.
  destruct (strip_decompose is_space s) as (k1 & k2 & Hs & Hk1 & Hk2).
  rewrite Hs at 2.
  rewrite findall_word_skip_prefix, findall_word_skip_suffix; [done|..].
  - eapply Forall_impl; [exact Hk2|]. intros c. apply space_not_word.
  - eapply Forall_impl; [exact Hk1|]. intros c. apply space_not_word.
Qed.

Lemma continues_not_word st c :
  continues is_space st c = true → is_word c = false.
Proof.
  destruct st; simpl; [discriminate | apply space_not_word|].
  intros Hc. apply N.eqb_eq in Hc. by subst c.
Qed.

(** Splitting neither cuts a run of word characters nor joins two. *)
Lemma re_split_tokens (text : str) prev st piece :
  scanner_ok st piece →
  concat (map (λ s, findall_word is_word s [])
              (re_split is_space text prev st piece))
  = findall_word is_word (rev piece ++ text) [].
Proof.
  revert prev st piece.
  induction text as [|c text IH]; intros prev st piece Hok; simpl.
  - by rewrite !app_nil_r.
  - assert (is_word c = false →
            ∀ prev' st',
              concat (map (λ s, findall_word is_word s [])
                          (rev piece :: re_split is_space text prev' st' []))
              = findall_word is_word (rev piece ++ c :: text) []) as Hcut.
    { intros Hc prev' st'. simpl.
      rewrite (IH _ _ [] (or_intror eq_refl)). simpl.
      by rewrite (findall_word_app_sep is_word (rev piece) text c [] Hc). }
    destruct (continues is_space st c) eqn:Hcont.
    { destruct Hok as [->| ->]; [discriminate Hcont|].
      rewrite (IH _ _ [] (or_intror eq_refl)). simpl.
      by rewrite (continues_not_word st c Hcont). }
    destruct (lookbehind_terminal prev && is_space c) eqn:Hsep.
    { apply Hcut. apply andb_true_iff in Hsep as [_ Hsp].
      by apply space_not_word. }
    destruct (c =? 10)%N eqn:Hnl.
    { apply Hcut. apply N.eqb_eq in Hnl. by subst c. }
    rewrite (IH _ _ (c :: piece) (or_introl eq_refl)). simpl.
    by rewrite <- app_assoc.
Qed.

Lemma split_sentences_findall (text : str) :
  concat (map (λ s, findall_word is_word s []) (split_sentences is_space text))
  = findall_word is_word text [].
Proof.
  unfold split_sentences.
  pose proof (re_split_tokens text None Seek [] (or_introl eq_refl)) as Hraw.
  simpl in Hraw. rewrite <- Hraw. clear Hraw.
  induction (re_split is_space text None Seek []) as [|raw raws IH];
    [reflexivity|].
  destruct (decide (strip is_space raw = [])) as [Hnil|Hne].
  - rewrite filter_cons_False by (by intros H). simpl. rewrite IH.
    by rewrite <- (findall_word_strip raw), Hnil.
  - rewrite filter_cons_True by done. simpl.
    by rewrite IH, findall_word_strip.
Qed.

Lemma split_sentences_tokens (text : str) :
  concat (map (simple_tokenize is_word is_space) (split_sentences is_space text))
  = simple_tokenize is_word is_space text.
Proof.
  rewrite (simple_tokenize_findall _ _ word_not_space text).
  rewrite <- split_sentences_findall. f_equal.
  apply map_ext. intros s. apply (simple_tokenize_findall _ _ word_not_space).
Qed.

Lemma length_concat_sum {A} (ls : list (list A)) :
  length (concat ls) = sum_list (map length ls).
Proof.
  induction ls as [|l ls IH]; simpl; [reflexivity|].
  by rewrite length_app, IH.
Qed.

Lemma sentence_lengths_sum (text : str) :
  sum_list (map (λ s, length (simple_tokenize is_word is_space s))
                (split_sentences is_space text))
  = length (simple_tokenize is_word is_space text).
Proof.
  rewrite <- split_sentences_tokens, length_concat_sum, map_map. reflexivity.
Qed.

End SentenceTokens.

Section SentenceTokenProperties.
Local Open Scope R_scope.

(** X9: when no word character is whitespace and the line break is not a
    word character, tokenizing sentence by sentence gives the tokens of the
    whole text, in order, so the per-sentence token counts add up to the
    token count and a text with a token has a sentence.  The returned
    [length_tokens] is the token count, and the returned [avg_sentence_len]
    is the quotient of the token count by the sentence count (taken as 1
    when there is no sentence), on the early return too. *)
Theorem X9_sentences_partition_tokens (is_word is_space : char → bool) (text : str) :
  (∀ c, is_word c = true → is_space c = false) →
  is_word 10%N = false →
  concat (map (simple_tokenize is_word is_space) (split_sentences is_space text))
  = simple_tokenize is_word is_space text
  ∧ sum_list (map (λ s, length (simple_tokenize is_word is_space s))
                  (split_sentences is_space text))
    = length (simple_tokenize is_word is_space text)
  ∧ (simple_tokenize is_word is_space text ≠ [] → split_sentences is_space text ≠ [])
  ∧ compute_features is_word is_space text !! "length_tokens"
    = Some (INR (length (simple_tokenize is_word is_space text)))
  ∧ compute_features is_word is_space text !! "avg_sentence_len"
    = Some (INR (length (simple_tokenize is_word is_space text))
            / INR (match split_sentences is_space text with
                   | [] => 1%nat
                   | _ :: _ => length (split_sentences is_space text)
                   end)).
Proof.
  intros Hdisjoint Hnl.
  pose proof (split_sentences_tokens is_word is_space Hdisjoint Hnl text) as Hpart.
  pose proof (sentence_lengths_sum is_word is_space Hdisjoint Hnl text) as Hsum.
  split; [exact Hpart|]. split; [exact Hsum|]. split.
  { intros Hne Hnil. rewrite Hnil in Hpart. simpl in Hpart. by apply Hne. }
  destruct (decide (length (simple_tokenize is_word is_space text) = 0%nat))
    as [Hzero|Hne].
  - unfold compute_features.
    rewrite (compute_features_with_zero _ _ _ _ Hzero), Hzero.
    split; [apply zero_features_values; unfold FEATURE_KEYS;
            rewrite !elem_of_cons; tauto|].
    rewrite (zero_features_values "avg_sentence_len")
      by (unfold FEATURE_KEYS; rewrite !elem_of_cons; tauto).
    f_equal. unfold Rdiv. simpl. by rewrite Rmult_0_l.
  - destruct (compute_features_sentence_stats is_word is_space
                FORMAL_ENDINGS text Hne) as [Havg _].
    cbv zeta in Havg. rewrite Hsum in Havg.
    split; [apply (compute_features_length_tokens _ _ _ _ Hne) | exact Havg].
Qed.

End SentenceTokenProperties.

(** ** Lemmas on [Counter] and [most_common] *)

Section CounterLemmas.

Lemma counter_get_incr k t counts :
  counter_get k (counter_incr t counts)
  = (counter_get k counts + if decide (k = t) then 1 else 0)%nat.
Proof.
  induction counts as [|[k' n] counts IH]; simpl.
  - destruct (decide (t = k)), (decide (k = t)); congruence || lia.
  - destruct (decide (k' = t)) as [->|Hne]; simpl.
    + destruct (decide (t = k)), (decide (k = t)); congruence || lia.
    + destruct (decide (k' = k)) as [->|Hne'].
      * destruct (decide (k = t)); [congruence | lia].
      * exact IH.
Qed.

Lemma counter_get_fold k tokens counts :
  counter_get k (fold_left (λ counts t, counter_incr t counts) tokens counts)
  = (counter_get k counts + occurrences k tokens)%nat.
Proof.
  revert counts. induction tokens as [|t tokens IH]; intros counts; simpl.
  - unfold occurrences. simpl. lia.
  - rewrite IH, counter_get_incr. unfold occurrences.
    destruct (decide (k = t)) as [->|Hne].
    + rewrite filter_cons_True by done. simpl. lia.
    + rewrite filter_cons_False by congruence. lia.
Qed.

Lemma counter_incr_keys t counts :
  map fst (counter_incr t counts)
  = if decide (t ∈ map fst counts) then map fst counts else map fst counts ++ [t].
Proof.
  induction counts as [|[k n] counts IH]; simpl; [reflexivity|].
  destruct (decide (k = t)) as [->|Hne]; simpl.
  - destruct (decide (t ∈ t :: map fst counts)) as [_|Hnot]; [done|].
    destruct Hnot. by left.
  - rewrite IH. destruct (decide (t ∈ map fst counts)) as [Hin|Hnot].
    + destruct (decide (t ∈ k :: map fst counts)) as [_|Hnot]; [done|].
      destruct Hnot. by right.
    + destruct (decide (t ∈ k :: map fst counts)) as [Hin|_]; [|done].
      apply elem_of_cons in Hin as [->|Hin]; [congruence | contradiction].
Qed.

Lemma counter_incr_NoDup t counts :
  NoDup (map fst counts) → NoDup (map fst (counter_incr t counts)).
Proof.
  intros Hnd. rewrite counter_incr_keys.
  case_decide as Hnot; [done|].
  apply NoDup_app. split; [done|]. split; [|apply NoDup_singleton].
  intros x Hx Hx'. apply list_elem_of_singleton in Hx'. by subst x.
Qed.

Lemma Counter_fold_NoDup tokens counts :
  NoDup (map fst counts) →
  NoDup (map fst (fold_left (λ counts t, counter_incr t counts) tokens counts)).
Proof.
  revert counts. induction tokens as [|t tokens IH]; intros counts Hnd; simpl;
    [done|]. by apply IH, counter_incr_NoDup.
Qed.

Lemma counter_get_elem k n counts :
  NoDup (map fst counts) → (k, n) ∈ counts → counter_get k counts = n.
Proof.
  induction counts as [|[k' n'] counts IH]; simpl; intros Hnd Hin.
  - by apply elem_of_nil in Hin.
  - apply NoDup_cons in Hnd as [Hnot Hnd].
    apply elem_of_cons in Hin as [Heq|Hin].
    + inversion Heq; subst. by rewrite decide_True.
    + destruct (decide (k' = k)) as [->|Hne]; [|by apply IH].
      destruct Hnot. apply list_elem_of_In, in_map_iff.
      exists (k, n). split; [done | by apply list_elem_of_In].
Qed.

Lemma counter_get_key k counts :
  (0 < counter_get k counts)%nat → ∃ n, (k, n) ∈ counts.
Proof.
  induction counts as [|[k' n'] counts IH]; simpl; [lia|].
  destruct (decide (k' = k)) as [->|Hne].
  - intros _. exists n'. by left.
  - intros Hpos. destruct (IH Hpos) as [n Hn]. exists n. by right.
Qed.

(** Every entry of [Counter(tokens)] holds the number of occurrences of
    its key, and every token has an entry. *)
Lemma Counter_entries tokens k n :
  (k, n) ∈ Counter tokens → n = occurrences k tokens.
Proof.
  intros Hin. unfold Counter in *.
  rewrite <- (counter_get_elem k n _ (Counter_fold_NoDup tokens [] (NoDup_nil_2)) Hin).
  by rewrite counter_get_fold.
Qed.

Lemma occurrences_elem (t : str) tokens :
  t ∈ tokens → (1 ≤ occurrences t tokens)%nat.
Proof.
  intros Hin. unfold occurrences.
  assert (t ∈ filter (λ x, x = t) tokens) as Hf by (by apply list_elem_of_filter).
  destruct (filter _ tokens); [by apply elem_of_nil in Hf | simpl; lia].
Qed.

Lemma occurrences_pos (t : str) tokens :
  (1 ≤ occurrences t tokens)%nat → t ∈ tokens.
Proof.
  unfold occurrences. intros Hpos.
  destruct (filter (λ x, x = t) tokens) as [|x l] eqn:Hf; [simpl in Hpos; lia|].
  assert (x ∈ filter (λ x, x = t) tokens) as Hx by (rewrite Hf; by left).
  apply list_elem_of_filter in Hx as [-> Hx]. done.
Qed.

Lemma occurrences_le (t : str) tokens : (occurrences t tokens ≤ length tokens)%nat.
Proof. apply length_filter. Qed.

Lemma Counter_has_entry tokens t :
  t ∈ tokens → (t, occurrences t tokens) ∈ Counter tokens.
Proof.
  intros Hin. apply occurrences_elem in Hin.
  destruct (counter_get_key t (Counter tokens)) as [n Hn].
  { unfold Counter. rewrite counter_get_fold. simpl. lia. }
  by rewrite <- (Counter_entries tokens t n Hn).
Qed.

Lemma max_by_count_spec best items :
  max_by_count best items ∈ best :: items
  ∧ ∀ it, it ∈ best :: items → (it.2 ≤ (max_by_count best items).2)%nat.
Proof.
  revert best. induction items as [|it items IH]; intros best; simpl.
  - split; [by left|]. intros it Hit.
    apply list_elem_of_singleton in Hit. by subst.
  - destruct (IH (if (best.2 <? it.2)%nat then it else best)) as [Hin Hmax].
    split.
    + apply elem_of_cons in Hin as [->|Hin]; [|by right; right].
      destruct (best.2 <? it.2)%nat; [right; by left | by left].
    + intros x Hx.
      destruct (best.2 <? it.2)%nat eqn:Hlt.
      * apply Nat.ltb_lt in Hlt.
        apply elem_of_cons in Hx as [->|Hx]; [|by apply Hmax].
        specialize (Hmax it ltac:(by left)). lia.
      * apply Nat.ltb_ge in Hlt.
        apply elem_of_cons in Hx as [->|Hx]; [apply Hmax; by left|].
        apply elem_of_cons in Hx as [->|Hx]; [|apply Hmax; by right].
        specialize (Hmax best ltac:(by left)). lia.
Qed.

(** [most_common(1)] returns a token of the text with its number of
    occurrences, and no token occurs more often. *)
Lemma most_common_1_spec tokens :
  tokens ≠ [] →
  ∃ t, most_common_1 (Counter tokens) = [(t, occurrences t tokens)]
       ∧ t ∈ tokens
       ∧ ∀ t', (occurrences t' tokens ≤ occurrences t tokens)%nat.
Proof.
  intros Hne.
  destruct (most_common_1_Counter tokens Hne) as [[t freq] Hmc].
  assert ((t, freq) ∈ Counter tokens
          ∧ ∀ it, it ∈ Counter tokens → (it.2 ≤ freq)%nat) as [Hin Hmax].
  { unfold most_common_1 in Hmc.
    destruct (Counter tokens) as [|best items]; [discriminate|].
    assert (max_by_count best items = (t, freq)) as Hmax by congruence.
    destruct (max_by_count_spec best items) as [Hin Hall].
    rewrite Hmax in Hin, Hall.
    split; [exact Hin | intros it Hit; exact (Hall it Hit)]. }
  pose proof (Counter_entries tokens t freq Hin) as ->.
  assert (∀ t', (occurrences t' tokens ≤ occurrences t tokens)%nat) as Hall.
  { intros t'. destruct (decide (t' ∈ tokens)) as [Ht'|Ht'].
    - apply (Hmax (t', occurrences t' tokens)). by apply Counter_has_entry.
    - assert (occurrences t' tokens = 0%nat) as ->; [|lia].
      destruct (occurrences t' tokens) eqn:Hocc; [done|].
      destruct Ht'. apply occurrences_pos. lia. }
  exists t. split; [exact Hmc|]. split; [|exact Hall].
  apply occurrences_pos.
  destruct tokens as [|t0 tokens]; [done|].
  pose proof (Hall t0) as Ht0.
  pose proof (occurrences_elem t0 (t0 :: tokens) ltac:(by left)). lia.
Qed.

End CounterLemmas.

Section RepetitionProperties.
Local Open Scope R_scope.

(** X10: on a text with a token, the numerator of [repetition_ratio] is the
    number of occurrences of one of the tokens of the text, and no token
    occurs more often: the ratio is the share of the most frequent
    token. *)
Theorem X10_repetition_ratio_most_frequent
    (is_word is_space : char → bool) (text : str) :
  length (simple_tokenize is_word is_space text) ≠ 0%nat →
  ∃ t,
    t ∈ simple_tokenize is_word is_space text
    ∧ compute_features is_word is_space text !! "repetition_ratio"
      = Some (INR (occurrences t (simple_tokenize is_word is_space text))
              / INR (length (simple_tokenize is_word is_space text)))
    ∧ ∀ t', (occurrences t' (simple_tokenize is_word is_space text)
             ≤ occurrences t (simple_tokenize is_word is_space text))%nat.
Proof.
  intros Hne.
  destruct (most_common_1_spec (simple_tokenize is_word is_space text))
    as (t & Hmc & Hin & Hmax).
  { intros Hnil. rewrite Hnil in Hne. by apply Hne. }
  exists t. split; [exact Hin|]. split; [|exact Hmax].
  unfold compute_features.
  rewrite (compute_features_repetition is_word is_space _ _ Hne).
  cbv zeta. by rewrite Hmc.
Qed.

End RepetitionProperties.

(** ** Ranges of the features *)

Section RangeLemmas.
Local Open Scope R_scope.

Lemma size_list_to_set_bounds (l : list str) :
  (size (list_to_set l : gset str) ≤ length l)%nat
  ∧ (l ≠ [] → (1 ≤ size (list_to_set l : gset str))%nat).
Proof.
  induction l as [|x l [IH _]].
  { split; [|done]. rewrite list_to_set_nil, size_empty. simpl. lia. }
  rewrite list_to_set_cons, size_union_alt, size_singleton.
  split; [|intros _; lia]. simpl.
  assert (size (list_to_set l ∖ {[x]} : gset str)
          ≤ size (list_to_set l : gset str))%nat.
  { apply subseteq_size. intros y Hy.
    apply elem_of_difference in Hy as [Hy _]. exact Hy. }
  lia.
Qed.

Lemma count_formal_from_le (endings : list str) (sentences : list str) (n : nat) :
  (fold_left (λ formal_count s,
                if ends_with_any endings s then S formal_count else formal_count)
             sentences n
   ≤ n + length sentences)%nat.
Proof.
  revert n. induction sentences as [|s sentences IH]; intros n; simpl; [lia|].
  destruct (ends_with_any endings s).
  - specialize (IH (S n)). lia.
  - specialize (IH n). lia.
Qed.

Lemma count_formal_le (endings : list str) (sentences : list str) :
  (count_formal endings sentences ≤ length sentences)%nat.
Proof. apply (count_formal_from_le endings sentences 0). Qed.

Lemma ratio_bounds (k n : nat) :
  (k ≤ n)%nat → (0 < n)%nat → 0 <= INR k / INR n <= 1.
Proof.
  intros Hkn Hn. apply le_INR in Hkn. apply lt_INR in Hn. simpl in Hn.
  pose proof (pos_INR k) as Hk.
  split.
  - apply Rmult_le_pos; [exact Hk|]. left. by apply Rinv_0_lt_compat.
  - apply (Rmult_le_reg_r (INR n)); [exact Hn|].
    replace (INR k / INR n * INR n) with (INR k) by (field; lra). lra.
Qed.

Lemma ratio_nonneg (k n : nat) : 0 <= INR k / INR n.
Proof.
  destruct n as [|n].
  - simpl. unfold Rdiv. rewrite Rinv_0. lra.
  - apply Rmult_le_pos; [apply pos_INR|]. left.
    apply Rinv_0_lt_compat. apply lt_0_INR. lia.
Qed.

Lemma ratio_pos (k n : nat) : (0 < k)%nat → (0 < n)%nat → 0 < INR k / INR n.
Proof.
  intros Hk Hn. apply lt_INR in Hk, Hn. simpl in *.
  apply Rmult_lt_0_compat; [exact Hk|]. by apply Rinv_0_lt_compat.
Qed.

Variable is_word : char → bool.
Variable is_space : char → bool.

(** The three count features on the main path of [compute_features]. *)
Lemma compute_features_counts endings text :
  length (simple_tokenize is_word is_space text) ≠ 0%nat →
  let sentences := split_sentences is_space text in
  let tokens := simple_tokenize is_word is_space text in
  let n_sent := match sentences with [] => 1%nat | _ :: _ => length sentences end in
  let features := compute_features_with is_word is_space endings text in
  features !! "type_token_ratio"
  = Some (INR (size (list_to_set tokens : gset str)) / INR (length tokens))
  ∧ features !! "formal_ending_ratio"
    = Some (INR (count_formal endings sentences) / INR n_sent)
  ∧ features !! "connectives_per_sentence"
    = Some (INR (length (filter (λ t, t ∈ KOREAN_CONNECTIVES) tokens)) / INR n_sent).
Proof.
  intros Hne. cbv zeta. unfold compute_features_with. cbv zeta.
  destruct (decide _) as [|_]; [contradiction|].
  rewrite sum_list_ones.
  destruct (decide (match split_sentences is_space text with
                    | [] => 1%nat
                    | _ :: _ => length (split_sentences is_space text)
                    end = 0%nat)) as [Hn|_].
  { destruct (split_sentences is_space text); discriminate Hn. }
  repeat split; literal_lookup.
Qed.

End RangeLemmas.

Section RangeProperties.
Local Open Scope R_scope.

(** X11: for every text the seven features exist and are non-negative, and
    [type_token_ratio], [repetition_ratio] and [formal_ending_ratio] are at
    most 1; on a text with a token, [length_tokens] is at least 1 and
    [type_token_ratio] and [repetition_ratio] are positive. *)
Theorem X11_feature_ranges (is_word is_space : char → bool) (text : str) :
  ∃ len ttr avg burst rep formal conn,
    compute_features is_word is_space text !! "length_tokens" = Some len
    ∧ compute_features is_word is_space text !! "type_token_ratio" = Some ttr
    ∧ compute_features is_word is_space text !! "avg_sentence_len" = Some avg
    ∧ compute_features is_word is_space text !! "sentence_burstiness" = Some burst
    ∧ compute_features is_word is_space text !! "repetition_ratio" = Some rep
    ∧ compute_features is_word is_space text !! "formal_ending_ratio" = Some formal
    ∧ compute_features is_word is_space text !! "connectives_per_sentence" = Some conn
    ∧ 0 <= len ∧ 0 <= ttr <= 1 ∧ 0 <= avg ∧ 0 <= burst
    ∧ 0 <= rep <= 1 ∧ 0 <= formal <= 1 ∧ 0 <= conn
    ∧ (length (simple_tokenize is_word is_space text) ≠ 0%nat →
       1 <= len ∧ 0 < ttr ∧ 0 < rep).
Proof.
  destruct (decide (length (simple_tokenize is_word is_space text) = 0%nat))
    as [Hzero|Hne].
  - exists 0, 0, 0, 0, 0, 0, 0. unfold compute_features.
    rewrite (compute_features_with_zero _ _ _ _ Hzero).
    repeat (split; [apply zero_features_values; unfold FEATURE_KEYS;
                    rewrite !elem_of_cons; tauto|]).
    repeat (split; [lra|]). intros Hne. contradiction.
  - set (tokens := simple_tokenize is_word is_space text) in *.
    set (sentences := split_sentences is_space text).
    assert (0 < length tokens)%nat as Hpos by lia.
    assert (tokens ≠ []) as Hnil by (intros H; rewrite H in Hne; by apply Hne).
    destruct (compute_features_counts is_word is_space FORMAL_ENDINGS text Hne)
      as (Httr & Hformal & Hconn).
    destruct (compute_features_sentence_stats is_word is_space FORMAL_ENDINGS
                text Hne) as [Havg Hburst].
    pose proof (compute_features_length_tokens is_word is_space FORMAL_ENDINGS
                  text Hne) as Hlen.
    destruct (most_common_1_spec tokens Hnil) as (t & Hmc & Hin & _).
    pose proof (compute_features_repetition is_word is_space FORMAL_ENDINGS
                  text Hne) as Hrep.
    cbv zeta in Httr, Hformal, Hconn, Havg, Hburst, Hlen, Hrep.
    fold tokens sentences in Httr, Hformal, Hconn, Havg, Hburst, Hlen, Hrep.
    rewrite Hmc in Hrep.
    destruct (size_list_to_set_bounds tokens) as [Hsize Hsize1].
    specialize (Hsize1 Hnil).
    pose proof (occurrences_le t tokens) as Hocc.
    pose proof (occurrences_elem t tokens Hin) as Hocc1.
    pose proof (count_formal_le FORMAL_ENDINGS sentences) as Hcount.
    set (n_sent := match sentences with
                   | [] => 1%nat
                   | _ :: _ => length sentences
                   end) in *.
    assert (0 < n_sent ∧ length sentences ≤ n_sent)%nat as [Hn Hsent].
    { unfold n_sent. destruct sentences; simpl; lia. }
    eexists _, _, _, _, _, _, _.
    split; [exact Hlen|]. split; [exact Httr|]. split; [exact Havg|].
    split; [exact Hburst|]. split; [exact Hrep|]. split; [exact Hformal|].
    split; [exact Hconn|].
    split; [apply pos_INR|].
    split; [apply ratio_bounds; lia|].
    split; [apply ratio_nonneg|].
    split.
    { destruct (Rgt_dec _ 0) as [Havgpos|_]; [|lra].
      apply Rmult_le_pos.
      - destruct (decide _); [apply sqrt_pos | lra].
      - left. by apply Rinv_0_lt_compat. }
    split; [apply ratio_bounds; lia|].
    split; [apply ratio_bounds; lia|].
    split; [apply ratio_nonneg|].
    intros _. split; [|split].
    + apply (le_INR 1). lia.
    + apply ratio_pos; lia.
    + apply ratio_pos; lia.
Qed.

End RangeProperties.

(** ** Formal endings *)

Section FormalLemmas.

Lemma endswith_true (s fe : str) : endswith s fe = true ↔ ∃ p, s = p ++ fe.
Proof. unfold endswith. by rewrite bool_decide_eq_true. Qed.

Lemma is_terminal_true (q : char) :
  is_terminal q = true ↔ q = 46%N ∨ q = 33%N ∨ q = 63%N.
Proof.
  unfold is_terminal. rewrite !orb_true_iff, !N.eqb_eq. tauto.
Qed.

Lemma ends_with_any_formal (s : str) :
  ends_with_any FORMAL_ENDINGS s = true
  ↔ ∃ p q, s = p ++ [45796%N; q] ∧ is_terminal q = true.
Proof.
  rewrite ends_with_any_short. unfold SHORT_ENDINGS. cbn [ends_with_any].
  split.
  - destruct (endswith s [45796; 46]%N) eqn:H1.
    { intros _. apply endswith_true in H1 as [p Hp].
      exists p, 46%N. by split. }
    destruct (endswith s [45796; 33]%N) eqn:H2.
    { intros _. apply endswith_true in H2 as [p Hp].
      exists p, 33%N. by split. }
    destruct (endswith s [45796; 63]%N) eqn:H3; [|discriminate].
    intros _. apply endswith_true in H3 as [p Hp].
    exists p, 63%N. by split.
  - intros (p & q & Hs & Hq).
    apply is_terminal_true in Hq as [->|[->| ->]].
    + rewrite (proj2 (endswith_true s [45796; 46]%N)); [done | by exists p].
    + rewrite (proj2 (endswith_true s [45796; 33]%N)) by (by exists p).
      by destruct (endswith s [45796; 46]%N).
    + rewrite (proj2 (endswith_true s [45796; 63]%N)) by (by exists p).
      by destruct (endswith s [45796; 46]%N), (endswith s [45796; 33]%N).
Qed.

Lemma count_formal_from_filter (endings : list str) (sentences : list str) n :
  fold_left (λ formal_count s,
               if ends_with_any endings s then S formal_count else formal_count)
            sentences n
  = (n + length (filter (λ s, ends_with_any endings s = true) sentences))%nat.
Proof.
  revert n. induction sentences as [|s sentences IH]; intros n; simpl; [lia|].
  rewrite IH. destruct (ends_with_any endings s) eqn:Hs.
  - rewrite filter_cons_True by done. simpl. lia.
  - rewrite filter_cons_False by congruence. lia.
Qed.

End FormalLemmas.

Section FormalProperties.
Local Open Scope R_scope.

(** X12: a sentence counts as formal exactly when its last two characters
    are 다 and one of [.], [!], [?]; the count is the number of such
    sentences, each counted once, and on a text with a token
    [formal_ending_ratio] is that number over the sentence count (taken as
    1 when there is no sentence). *)
Theorem X12_formal_ending_ratio :
  (∀ s : str,
     ends_with_any FORMAL_ENDINGS s = true
     ↔ ∃ p q, s = p ++ [45796%N; q] ∧ is_terminal q = true)
  ∧ (∀ sentences : list str,
       count_formal FORMAL_ENDINGS sentences
       = length (filter (λ s, ends_with_any FORMAL_ENDINGS s = true) sentences))
  ∧ (∀ (is_word is_space : char → bool) (text : str),
       length (simple_tokenize is_word is_space text) ≠ 0%nat →
       compute_features is_word is_space text !! "formal_ending_ratio"
       = Some (INR (length (filter (λ s, ends_with_any FORMAL_ENDINGS s = true)
                                   (split_sentences is_space text)))
               / INR (match split_sentences is_space text with
                      | [] => 1%nat
                      | _ :: _ => length (split_sentences is_space text)
                      end))).
Proof.
  assert (∀ sentences : list str,
       count_formal FORMAL_ENDINGS sentences
       = length (filter (λ s, ends_with_any FORMAL_ENDINGS s = true) sentences))
    as Hcount.
  { intros sentences. unfold count_formal.
    by rewrite count_formal_from_filter. }
  split; [apply ends_with_any_formal|]. split; [exact Hcount|].
  intros is_word is_space text Hne.
  destruct (compute_features_counts is_word is_space FORMAL_ENDINGS text Hne)
    as (_ & Hformal & _).
  cbv zeta in Hformal. by rewrite Hcount in Hformal.
Qed.

End FormalProperties.

(** ** More on the scorer *)

Section ScorerMoreLemmas.
Local Open Scope R_scope.

Lemma final_antimono_burst ttr formal conn length repetition a b :
  a <= b →
  final_of ttr b formal conn length repetition
  <= final_of ttr a formal conn length repetition.
Proof.
  intros Hab. unfold final_of. apply clamp01_mono.
  unfold raw_of, burstiness_score_of.
  pose proof (clamp01_mono (a / 0.8) (b / 0.8)). lra.
Qed.

Lemma final_mono_conn ttr burst formal length repetition a b :
  a <= b →
  final_of ttr burst formal a length repetition
  <= final_of ttr burst formal b length repetition.
Proof.
  intros Hab. unfold final_of. apply clamp01_mono.
  unfold raw_of, connectives_score_of.
  pose proof (clamp01_mono (a / 0.8) (b / 0.8)). lra.
Qed.

Lemma final_mono_repetition ttr burst formal conn length a b :
  a <= b →
  final_of ttr burst formal conn length a
  <= final_of ttr burst formal conn length b.
Proof.
  intros Hab. unfold final_of. apply clamp01_mono.
  unfold raw_of, repetition_score_of.
  pose proof (clamp01_mono (a / 0.2) (b / 0.2)). lra.
Qed.

Lemma final_antimono_length ttr burst formal conn repetition a b :
  a <= b →
  final_of ttr burst formal conn b repetition
  <= final_of ttr burst formal conn a repetition.
Proof.
  intros Hab. unfold final_of. apply clamp01_mono. unfold penalty_of.
  destruct (Rlt_dec a 30), (Rlt_dec b 30); lra.
Qed.


(** The keys of the scorer's result. *)
Lemma score_ai_likelihood_dom (features scores : gmap string R) :
  score_ai_likelihood features = Ok scores →
  dom scores = list_to_set SUBSCORE_KEYS.
Proof.
  unfold score_ai_likelihood, getitem.
  repeat (match goal with
          | |- context [features !! ?key] => destruct (features !! key); cbn [bind]
          end; [|discriminate]).
  intros Hok. inversion Hok as [Hscores]. clear Hok Hscores.
  rewrite !dom_insert_L, dom_singleton_L. unfold SUBSCORE_KEYS. simpl.
  apply set_eq. intros k. rewrite !elem_of_union, !elem_of_singleton.
  rewrite elem_of_empty. tauto.
Qed.

Lemma feature_literal_dom (a b c d e f g : R) :
  dom ({[ "length_tokens" := a;
          "type_token_ratio" := b;
          "avg_sentence_len" := c;
          "sentence_burstiness" := d;
          "repetition_ratio" := e;
          "formal_ending_ratio" := f;
          "connectives_per_sentence" := g ]} : gmap string R)
  = list_to_set FEATURE_KEYS.
Proof.
  rewrite !dom_insert_L, dom_singleton_L. unfold FEATURE_KEYS. simpl.
  apply set_eq. intros k. rewrite !elem_of_union, !elem_of_singleton.
  rewrite elem_of_empty. tauto.
Qed.

Lemma compute_features_dom (is_word is_space : char → bool) (text : str) :
  dom (compute_features is_word is_space text) = list_to_set FEATURE_KEYS.
Proof.
  unfold compute_features, compute_features_with. cbv zeta.
  destruct (decide _); apply feature_literal_dom.
Qed.

End ScorerMoreLemmas.

Section ScorerMoreProperties.
Local Open Scope R_scope.

(** X13: with the other features fixed, [ai_score] never increases when
    [sentence_burstiness] increases, never decreases when
    [connectives_per_sentence] or [repetition_ratio] increases, never
    increases when [type_token_ratio] increases (on the whole line), and
    never increases when [length_tokens] increases. *)
Theorem X13_score_directions (features : gmap string R) (a b : R) :
  is_feature_set features →
  a <= b →
  (∃ va vb,
     ai_score_of (<["sentence_burstiness" := a]> features) = Ok va
     ∧ ai_score_of (<["sentence_burstiness" := b]> features) = Ok vb
     ∧ vb <= va)
  ∧ (∃ va vb,
       ai_score_of (<["connectives_per_sentence" := a]> features) = Ok va
       ∧ ai_score_of (<["connectives_per_sentence" := b]> features) = Ok vb
       ∧ va <= vb)
  ∧ (∃ va vb,
       ai_score_of (<["repetition_ratio" := a]> features) = Ok va
       ∧ ai_score_of (<["repetition_ratio" := b]> features) = Ok vb
       ∧ va <= vb)
  ∧ (∃ va vb,
       ai_score_of (<["type_token_ratio" := a]> features) = Ok va
       ∧ ai_score_of (<["type_token_ratio" := b]> features) = Ok vb
       ∧ vb <= va)
  ∧ (∃ va vb,
       ai_score_of (<["length_tokens" := a]> features) = Ok va
       ∧ ai_score_of (<["length_tokens" := b]> features) = Ok vb
       ∧ vb <= va).
Proof.
  intros Hfs Hab.
  destruct (feature_set_values _ Hfs)
    as (ttr & burst & formal & conn & length & repetition & scores
        & Httr & Hburst & Hformal & Hconn & Hlen & Hrep & _).
  repeat split.
  - exists (final_of ttr a formal conn length repetition),
           (final_of ttr b formal conn length repetition).
    split; [|split]; [apply ai_score_of_ok; by simplify_map_eq..|].
    by apply final_antimono_burst.
  - exists (final_of ttr burst formal a length repetition),
           (final_of ttr burst formal b length repetition).
    split; [|split]; [apply ai_score_of_ok; by simplify_map_eq..|].
    by apply final_mono_conn.
  - exists (final_of ttr burst formal conn length a),
           (final_of ttr burst formal conn length b).
    split; [|split]; [apply ai_score_of_ok; by simplify_map_eq..|].
    by apply final_mono_repetition.
  - exists (final_of a burst formal conn length repetition),
           (final_of b burst formal conn length repetition).
    split; [|split]; [apply ai_score_of_ok; by simplify_map_eq..|].
    by apply final_antimono_ttr.
  - exists (final_of ttr burst formal conn a repetition),
           (final_of ttr burst formal conn b repetition).
    split; [|split]; [apply ai_score_of_ok; by simplify_map_eq..|].
    by apply final_antimono_length.
Qed.


End ScorerMoreProperties.

Section HandlerProperties.
Local Open Scope R_scope.

(** X16: for every text the handler [gpt_killer] returns a response and
    raises no [KeyError].  Its [meta] is the FeatureSet of the text, with
    the seven feature keys; its [feature_scores] is the scorer's result on
    it, with the seven sub-score keys; its [ai_score] is the entry
    [ai_score] of [feature_scores], and its [label] is the label of that
    score, one of the three labels. *)
Theorem X16_gpt_killer_response (is_word is_space : char → bool) (text : str) :
  ∃ response,
    gpt_killer is_word is_space text = Ok response
    ∧ meta response = compute_features is_word is_space text
    ∧ dom (meta response) = list_to_set FEATURE_KEYS
    ∧ score_ai_likelihood (compute_features is_word is_space text)
      = Ok (feature_scores response)
    ∧ dom (feature_scores response) = list_to_set SUBSCORE_KEYS
    ∧ feature_scores response !! "ai_score" = Some (ai_score response)
    ∧ label response = label_from_score (ai_score response)
    ∧ label response ∈ ["AI_LIKELY"; "UNCERTAIN"; "HUMAN_LIKELY"]%string.
Proof.
  destruct (gpt_killer_ok is_word is_space text)
    as (response & Hresp & Hrun & Hscore & Hlabel & Hmeta).
  exists response. split; [exact Hresp|]. split; [exact Hmeta|].
  split; [rewrite Hmeta; apply compute_features_dom|].
  split; [exact Hrun|].
  split; [by apply (score_ai_likelihood_dom _ _ Hrun)|].
  split.
  { unfold ai_score_of, getitem in Hscore. rewrite Hrun in Hscore.
    cbn [bind] in Hscore.
    destruct (feature_scores response !! "ai_score"); [|discriminate].
    by inversion Hscore. }
  split; [exact Hlabel|].
  rewrite Hlabel. unfold label_from_score.
  rewrite !elem_of_cons.
  destruct (Rge_dec _ 0.7); [by left|].
  destruct (Rge_dec _ 0.4); [right; by left | right; right; by left].
Qed.

End HandlerProperties.

(** ** Separators cut the text into independent parts *)

Section SplitterComposition.

Variable is_space : char → bool.
Hypothesis newline_space : is_space 10%N = true.
Hypothesis terminal_not_space : ∀ c, is_terminal c = true → is_space c = false.

Lemma split_sentences_sentences_of (text : str) :
  split_sentences is_space text
  = sentences_of is_space (re_split is_space text None Seek []).
Proof. reflexivity. Qed.

Lemma sentences_of_app (x y : list str) :
  sentences_of is_space (x ++ y)
  = sentences_of is_space x ++ sentences_of is_space y.
Proof. unfold sentences_of. by rewrite filter_app, map_app. Qed.

Lemma sentences_of_cons (p : str) (ps : list str) :
  sentences_of is_space (p :: ps)
  = sentences_of is_space [p] ++ sentences_of is_space ps.
Proof. apply (sentences_of_app [p] ps). Qed.

Lemma sentences_of_strip (p q : str) :
  strip is_space p = strip is_space q →
  sentences_of is_space [p] = sentences_of is_space [q].
Proof.
  intros Heq. unfold sentences_of.
  destruct (decide (strip is_space p = [])) as [Hp|Hp].
  - rewrite !filter_cons_False; [done | by rewrite <- Heq; intros H | by intros H].
  - rewrite !filter_cons_True; [simpl; by rewrite Heq | by rewrite <- Heq | done].
Qed.

Lemma sentences_of_blank (p : str) :
  Forall (λ c, is_space c = true) p → sentences_of is_space [rev p] = [].
Proof.
  intros Hp. unfold sentences_of. rewrite filter_cons_False; [done|].
  intros Hne. apply Hne. apply strip_all_space.
  apply Forall_forall. intros c Hc. rewrite Forall_forall in Hp.
  apply Hp. by apply list_elem_of_In, in_rev, list_elem_of_In.
Qed.

Lemma lstrip_skip_prefix (ws x : str) :
  Forall (λ c, is_space c = true) ws →
  lstrip is_space (ws ++ x) = lstrip is_space x.
Proof. induction 1 as [|c ws Hc _ IH]; simpl; [done|]. by rewrite Hc. Qed.

Lemma strip_skip_prefix (ws x : str) :
  Forall (λ c, is_space c = true) ws →
  strip is_space (ws ++ x) = strip is_space x.
Proof. intros Hws. unfold strip. by rewrite lstrip_skip_prefix. Qed.

Lemma space_not_terminal c : is_space c = true → is_terminal c = false.
Proof.
  intros Hc. destruct (is_terminal c) eqn:Ht; [|reflexivity].
  rewrite (terminal_not_space c Ht) in Hc. discriminate.
Qed.

(** Whitespace at the start of the pending piece changes no sentence. *)
Lemma re_split_leading_space (text : str) prev st p w :
  Forall (λ c, is_space c = true) w →
  sentences_of is_space (re_split is_space text prev st (p ++ w))
  = sentences_of is_space (re_split is_space text prev st p).
Proof.
  intros Hw. revert prev st p.
  assert (∀ p, sentences_of is_space [rev (p ++ w)]
               = sentences_of is_space [rev p]) as Hpiece.
  { intros p. apply sentences_of_strip. rewrite rev_app_distr.
    apply strip_skip_prefix.
    apply Forall_forall. intros c Hc. rewrite Forall_forall in Hw.
    apply Hw. by apply list_elem_of_In, in_rev, list_elem_of_In. }
  induction text as [|c text IH]; intros prev st p; simpl; [apply Hpiece|].
  destruct (continues is_space st c); [apply IH|].
  destruct (lookbehind_terminal prev && is_space c).
  { by rewrite sentences_of_cons, Hpiece, <- sentences_of_cons. }
  destruct (c =? 10)%N.
  { by rewrite sentences_of_cons, Hpiece, <- sentences_of_cons. }
  apply (IH _ _ (c :: p)).
Qed.

(** One step from a blank state: a whitespace character leads to a blank
    state; any other character starts the piece afresh. *)
Lemma blank_state_step prev st p c (text : str) :
  blank_state is_space prev st p →
  (is_space c = true ∧
   ∃ prev' st' p',
     blank_state is_space prev' st' p'
     ∧ sentences_of is_space (re_split is_space (c :: text) prev st p)
       = sentences_of is_space (re_split is_space text prev' st' p'))
  ∨ (is_space c = false ∧
     sentences_of is_space (re_split is_space (c :: text) prev st p)
     = sentences_of is_space (re_split is_space text (Some c) Seek [c])).
Proof.
  intros Hblank. simpl.
  destruct (is_space c) eqn:Hc; [left | right]; (split; [reflexivity|]).
  - destruct st; simpl in *.
    + destruct Hblank as [Hp Hprev]. rewrite Hprev. simpl.
      destruct (c =? 10)%N eqn:Hnl.
      * exists (Some c), InNewlines, []. split.
        -- split; [done|]. simpl. by apply space_not_terminal.
        -- by rewrite sentences_of_cons, sentences_of_blank.
      * exists (Some c), Seek, (c :: p). split; [|reflexivity].
        split; [by constructor|]. simpl. by apply space_not_terminal.
    + subst p. rewrite Hc. exists (Some c), InSpaces, []. by split.
    + destruct Hblank as [-> Hprev].
      destruct (c =? 10)%N eqn:Hnl.
      * exists (Some c), InNewlines, []. split; [|reflexivity].
        split; [done|]. simpl. by apply space_not_terminal.
      * rewrite Hprev. simpl.
        exists (Some c), Seek, [c]. split; [|reflexivity].
        split; [by repeat constructor|]. simpl. by apply space_not_terminal.
  - assert ((c =? 10)%N = false) as Hnl.
    { apply N.eqb_neq. intros ->. rewrite newline_space in Hc. discriminate. }
    destruct st; simpl in *.
    + destruct Hblank as [Hp Hprev]. rewrite Hprev, Hnl. simpl.
      apply (re_split_leading_space text (Some c) Seek [c] p Hp).
    + subst p. rewrite Hc, Hnl, andb_false_r. reflexivity.
    + destruct Hblank as [-> Hprev]. rewrite Hnl, Hprev. reflexivity.
Qed.

(** From any two blank states the scanner gives the same sentences. *)
Lemma blank_states_agree (text : str) prev1 st1 p1 prev2 st2 p2 :
  blank_state is_space prev1 st1 p1 →
  blank_state is_space prev2 st2 p2 →
  sentences_of is_space (re_split is_space text prev1 st1 p1)
  = sentences_of is_space (re_split is_space text prev2 st2 p2).
Proof.
  revert prev1 st1 p1 prev2 st2 p2.
  induction text as [|c text IH]; intros prev1 st1 p1 prev2 st2 p2 H1 H2.
  - assert (∀ prev st p, blank_state is_space prev st p →
                         Forall (λ c, is_space c = true) p) as Hpiece.
    { intros prev st p. destruct st; simpl.
      - by intros [? _].
      - intros ->. constructor.
      - intros [-> _]. constructor. }
    simpl. rewrite !sentences_of_blank; eauto.
  - destruct (blank_state_step prev1 st1 p1 c text H1)
      as [(Hc & prev1' & st1' & p1' & H1' & ->)|(Hc & ->)];
    destruct (blank_state_step prev2 st2 p2 c text H2)
      as [(Hc' & prev2' & st2' & p2' & H2' & ->)|(Hc' & ->)];
    try congruence.
    by apply IH.
Qed.

Lemma blank_state_fresh (text : str) prev st p :
  blank_state is_space prev st p →
  sentences_of is_space (re_split is_space text prev st p)
  = split_sentences is_space text.
Proof.
  intros Hblank. rewrite split_sentences_sentences_of.
  apply blank_states_agree; [exact Hblank|].
  split; [constructor | reflexivity].
Qed.

(** If a tail behaves, from every scanner state, like a shorter tail
    followed by a fresh start, it does so after any prefix. *)
Lemma re_split_prefix (a tail tail0 : str) (rest : list str) :
  (∀ prev st p, scanner_ok st p →
     sentences_of is_space (re_split is_space tail prev st p)
     = sentences_of is_space (re_split is_space tail0 prev st p) ++ rest) →
  ∀ prev st p, scanner_ok st p →
    sentences_of is_space (re_split is_space (a ++ tail) prev st p)
    = sentences_of is_space (re_split is_space (a ++ tail0) prev st p) ++ rest.
Proof.
  intros Htail. induction a as [|c a IH]; intros prev st p Hok; [by apply Htail|].
  simpl. destruct (continues is_space st c) eqn:Hcont.
  { apply IH. destruct Hok as [->|Hp]; [discriminate Hcont | by right]. }
  destruct (lookbehind_terminal prev && is_space c).
  { rewrite sentences_of_cons, (sentences_of_cons _ (re_split _ (a ++ tail0) _ _ _)).
    rewrite IH by (by right). by rewrite app_assoc. }
  destruct (c =? 10)%N.
  { rewrite sentences_of_cons, (sentences_of_cons _ (re_split _ (a ++ tail0) _ _ _)).
    rewrite IH by (by right). by rewrite app_assoc. }
  apply IH. by left.
Qed.

Lemma split_at_newline (a b : str) :
  split_sentences is_space (a ++ 10%N :: b)
  = split_sentences is_space a ++ split_sentences is_space b.
Proof.
  rewrite !split_sentences_sentences_of.
  rewrite <- (app_nil_r a) at 2.
  apply re_split_prefix; [|by left].
  intros prev st p Hok. simpl.
  destruct (continues is_space st 10) eqn:Hcont.
  - destruct Hok as [->| ->]; [discriminate Hcont|].
    rewrite (sentences_of_blank []) by constructor. simpl.
    rewrite <- split_sentences_sentences_of. apply blank_state_fresh.
    destruct st; simpl; done.
  - rewrite <- split_sentences_sentences_of.
    destruct (lookbehind_terminal prev && is_space 10);
      rewrite (sentences_of_cons (rev p) (re_split is_space b _ _ _));
      f_equal; apply blank_state_fresh; simpl; done.
Qed.

Lemma split_at_terminal (a b : str) t sp :
  is_terminal t = true → is_space sp = true →
  split_sentences is_space (a ++ t :: sp :: b)
  = split_sentences is_space (a ++ [t]) ++ split_sentences is_space b.
Proof.
  intros Ht Hsp. rewrite !split_sentences_sentences_of.
  apply re_split_prefix; [|by left].
  intros prev st p Hok.
  assert (is_space t = false) as Hts by (by apply terminal_not_space).
  assert ((t =? 10)%N = false) as Hnl.
  { apply N.eqb_neq. intros ->. rewrite newline_space in Hts. discriminate. }
  assert (continues is_space st t = false) as Hcont.
  { destruct st; simpl; done. }
  cbn [re_split]. rewrite Hcont, Hts, andb_false_r, Hnl.
  cbn [continues lookbehind_terminal]. rewrite Ht, Hsp. cbn [andb].
  rewrite (sentences_of_cons _ (re_split is_space b _ _ _)). f_equal.
  rewrite <- split_sentences_sentences_of. by apply blank_state_fresh.
Qed.

End SplitterComposition.

Section SplitterCompositionProperties.

(** X17: when the line break is a whitespace character and [.], [!], [?]
    are not, the lines of a text are split independently: the sentences of
    [a], a line break, [b] are the sentences of [a] followed by the
    sentences of [b]. *)
Theorem X17_split_at_line_break (is_space : char → bool) (a b : str) :
  is_space 10%N = true →
  (∀ c, is_terminal c = true → is_space c = false) →
  split_sentences is_space (a ++ 10%N :: b)
  = split_sentences is_space a ++ split_sentences is_space b.
Proof. intros Hnl Hterm. by apply split_at_newline. Qed.

(** X18: under the same assumptions, a [.], [!] or [?] directly before a
    whitespace character ends a sentence: the sentences of [a], the mark,
    the whitespace character, [b] are the sentences of [a] with the mark
    followed by the sentences of [b]. *)
Theorem X18_split_at_sentence_end (is_space : char → bool) (a b : str) (t sp : char) :
  is_space 10%N = true →
  (∀ c, is_terminal c = true → is_space c = false) →
  is_terminal t = true →
  is_space sp = true →
  split_sentences is_space (a ++ t :: sp :: b)
  = split_sentences is_space (a ++ [t]) ++ split_sentences is_space b.
Proof. intros Hnl Hterm Ht Hsp. by apply split_at_terminal. Qed.

End SplitterCompositionProperties.

(** ** The further properties at concrete inputs *)

Section ValidationInstances.
Local Open Scope R_scope.

Lemma korean_request_stripped_length :
  length (strip space_ascii korean_request) = 309%nat.
Proof. vm_compute. reflexivity. Qed.

Lemma korean_request_counts :
  length (filter (λ ch, space_ascii ch = false) (strip space_ascii korean_request))
  = 248%nat
  ∧ length (filter (λ ch, is_hangul ch = true)
              (filter (λ ch, space_ascii ch = false)
                      (strip space_ascii korean_request)))
    = 217%nat.
Proof. vm_compute. done. Qed.

Lemma korean_request_valid :
  text_validate space_ascii korean_request
  = Valid (strip space_ascii korean_request).
Proof.
  destruct korean_request_counts as [Hn Hk].
  destruct (text_validate_outcome space_ascii korean_request)
    as [[Hshort _]|[(_ & Hlow & _)|(_ & _ & H)]]; cbv zeta in *.
  - rewrite korean_request_stripped_length in Hshort. lia.
  - rewrite Hn, Hk in Hlow. lia.
  - exact H.
Qed.

Lemma is_hangul_word (c : char) : is_hangul c = true → word_ascii_hangul c = true.
Proof.
  unfold is_hangul, word_ascii_hangul. intros ->.
  by rewrite !orb_true_r.
Qed.

(** X2 on the request text 가나다 라마니다. (31 times). *)
Lemma X2_text_validate_idempotent_witness :
  text_validate space_ascii korean_request
  = Valid (strip space_ascii korean_request)
  ∧ text_validate space_ascii (strip space_ascii korean_request)
    = Valid (strip space_ascii korean_request).
Proof.
  split; [apply korean_request_valid|].
  apply (X2_text_validate_idempotent space_ascii korean_request).
  apply korean_request_valid.
Defined.

(** X3 on the same request text. *)
Lemma X3_validated_text_has_token_witness :
  (1 ≤ length (simple_tokenize word_ascii_hangul space_ascii
                 (strip space_ascii korean_request)))%nat
  ∧ compute_features word_ascii_hangul space_ascii
      (strip space_ascii korean_request) ≠ zero_features.
Proof.
  destruct (X3_validated_text_has_token word_ascii_hangul space_ascii
              korean_request (strip space_ascii korean_request))
    as (Htokens & _ & Hne).
  - apply word_ascii_hangul_not_space.
  - apply is_hangul_word.
  - apply korean_request_valid.
  - split; [exact Htokens | exact Hne].
Defined.

End ValidationInstances.

Section TokenizerInstances.

(** X4 on the text 저는 학생입니다. 또한 좋다! 네 *)
Lemma X4_tokens_keep_word_characters_witness :
  Forall (λ t, t ≠ [] ∧ Forall (λ c, word_ascii_hangul c = true) t)
         (simple_tokenize word_ascii_hangul space_ascii korean_text)
  ∧ concat (simple_tokenize word_ascii_hangul space_ascii korean_text)
    = filter (λ c, word_ascii_hangul c = true) korean_text.
Proof.
  apply (X4_tokens_keep_word_characters word_ascii_hangul space_ascii korean_text).
  apply word_ascii_hangul_not_space.
Defined.

(** X5 on 가나다 and 라마 around a space, and on 가나다 alone. *)
Lemma X5_tokens_are_maximal_runs_witness :
  simple_tokenize word_ascii_hangul space_ascii
    ([44032; 45208; 45796] ++ 32 :: [46972; 47560])%N
  = simple_tokenize word_ascii_hangul space_ascii [44032; 45208; 45796]%N
    ++ simple_tokenize word_ascii_hangul space_ascii [46972; 47560]%N
  ∧ simple_tokenize word_ascii_hangul space_ascii [44032; 45208; 45796]%N
    = [ [44032; 45208; 45796]%N ].
Proof.
  destruct (X5_tokens_are_maximal_runs word_ascii_hangul space_ascii
              word_ascii_hangul_not_space) as [Hsep Hrun].
  split.
  - apply Hsep. reflexivity.
  - apply Hrun; [discriminate|]. repeat constructor.
Defined.

(** X6 on the text [?! ...]. *)
Lemma X6_early_return_iff_no_word_character_witness :
  (simple_tokenize word_ascii_hangul space_ascii punctuation_text = []
   ↔ Forall (λ c, word_ascii_hangul c = false) punctuation_text)
  ∧ (compute_features word_ascii_hangul space_ascii punctuation_text = zero_features
     ↔ Forall (λ c, word_ascii_hangul c = false) punctuation_text).
Proof.
  apply (X6_early_return_iff_no_word_character
           word_ascii_hangul space_ascii punctuation_text).
  apply word_ascii_hangul_not_space.
Defined.

End TokenizerInstances.

Section MoreInstances.
Local Open Scope R_scope.

(** X7 on the first sentence of 저는 학생입니다. 또한 좋다! 네 *)
Lemma X7_sentence_shape_witness :
  [51200; 45716; 32; 54617; 49373; 51077; 45768; 45796; 46]%N
    ∈ split_sentences space_ascii korean_text
  ∧ strip space_ascii [51200; 45716; 32; 54617; 49373; 51077; 45768; 45796; 46]%N
    = [51200; 45716; 32; 54617; 49373; 51077; 45768; 45796; 46]%N
  ∧ (10%N ∉ [51200; 45716; 32; 54617; 49373; 51077; 45768; 45796; 46]%N)
  ∧ (∃ a b, korean_text
            = a ++ [51200; 45716; 32; 54617; 49373; 51077; 45768; 45796; 46]%N ++ b).
Proof.
  assert ([51200; 45716; 32; 54617; 49373; 51077; 45768; 45796; 46]%N
            ∈ split_sentences space_ascii korean_text) as Hin.
  { rewrite (proj1 korean_text_features). by left. }
  destruct (X7_sentence_shape space_ascii korean_text _ Hin)
    as (_ & Hstrip & _ & _ & Hnl & Hpart).
  split; [exact Hin|]. split; [exact Hstrip|]. split; [exact Hnl | exact Hpart].
Defined.

Lemma one_sentence_text_pairs (a : str) (c d : char) (b : str) :
  one_sentence_text = a ++ c :: d :: b →
  is_terminal c = true → space_ascii d = false.
Proof.
  unfold one_sentence_text. intros Heq Hc.
  do 9 (destruct a as [|? a];
        [ simpl in Heq; inversion Heq; subst;
          first [discriminate Hc | reflexivity]
        | simpl in Heq; injection Heq as <- Heq ]).
  destruct a; discriminate Heq.
Qed.

(** X8 on the text 가나다 라마니다. *)
Lemma X8_text_without_separator_witness :
  split_sentences space_ascii one_sentence_text = [one_sentence_text].
Proof.
  rewrite (X8_text_without_separator space_ascii one_sentence_text).
  - reflexivity.
  - unfold one_sentence_text. rewrite !elem_of_cons, elem_of_nil.
    intros Hin. repeat (destruct Hin as [Hin|Hin]; [discriminate Hin|]). done.
  - apply one_sentence_text_pairs.
Defined.

(** X9 on the text 저는 학생입니다. 또한 좋다! 네 *)
Lemma X9_sentences_partition_tokens_witness :
  concat (map (simple_tokenize word_ascii_hangul space_ascii)
              (split_sentences space_ascii korean_text))
  = simple_tokenize word_ascii_hangul space_ascii korean_text
  ∧ compute_features word_ascii_hangul space_ascii korean_text
      !! "length_tokens" = Some (INR 5)
  ∧ compute_features word_ascii_hangul space_ascii korean_text
      !! "avg_sentence_len" = Some (INR 5 / INR 3).
Proof.
  destruct (X9_sentences_partition_tokens word_ascii_hangul space_ascii korean_text)
    as (Hpart & _ & _ & Hlen & Havg).
  - apply word_ascii_hangul_not_space.
  - reflexivity.
  - destruct korean_text_features as (Hsent & Htok & _).
    rewrite Htok in Hlen, Havg. rewrite Hsent in Havg.
    split; [exact Hpart|]. split; [exact Hlen | exact Havg].
Defined.

(** X10 on the text [a b c d e]. *)
Lemma X10_repetition_ratio_most_frequent_witness :
  ∃ t,
    t ∈ simple_tokenize word_ascii_hangul space_ascii five_token_text
    ∧ compute_features word_ascii_hangul space_ascii five_token_text
        !! "repetition_ratio"
      = Some (INR (occurrences t (simple_tokenize word_ascii_hangul space_ascii
                                    five_token_text))
              / INR (length (simple_tokenize word_ascii_hangul space_ascii
                               five_token_text))).
Proof.
  destruct (X10_repetition_ratio_most_frequent word_ascii_hangul space_ascii
              five_token_text) as (t & Hin & Hrep & _).
  - rewrite five_token_text_tokens. discriminate.
  - exists t. split; [exact Hin | exact Hrep].
Defined.

(** X13 on the example FeatureSet, between the values 0.4 and 0.6. *)
Lemma X13_score_directions_witness :
  (∃ va vb,
     ai_score_of (<["sentence_burstiness" := 0.4]> (example_features 20)) = Ok va
     ∧ ai_score_of (<["sentence_burstiness" := 0.6]> (example_features 20)) = Ok vb
     ∧ vb <= va)
  ∧ (∃ va vb,
       ai_score_of (<["length_tokens" := 0.4]> (example_features 20)) = Ok va
       ∧ ai_score_of (<["length_tokens" := 0.6]> (example_features 20)) = Ok vb
       ∧ vb <= va).
Proof.
  destruct (X13_score_directions (example_features 20) 0.4 0.6)
    as (Hburst & _ & _ & _ & Hlen).
  - apply example_features_is_feature_set.
  - lra.
  - split; [exact Hburst | exact Hlen].
Defined.



End MoreInstances.

Section CompositionInstances.

Lemma terminal_not_space_ascii (c : char) :
  is_terminal c = true → space_ascii c = false.
Proof.
  intros Hc. apply is_terminal_true in Hc as [->|[->| ->]]; reflexivity.
Qed.

(** X17 on 가나다 and 라마 on two lines. *)
Lemma X17_split_at_line_break_witness :
  split_sentences space_ascii ([44032; 45208; 45796] ++ 10 :: [46972; 47560])%N
  = split_sentences space_ascii [44032; 45208; 45796]%N
    ++ split_sentences space_ascii [46972; 47560]%N.
Proof.
  apply (X17_split_at_line_break space_ascii).
  - reflexivity.
  - apply terminal_not_space_ascii.
Defined.

(** X18 on 가나다 and 라마 around a full stop and a space. *)
Lemma X18_split_at_sentence_end_witness :
  split_sentences space_ascii
    ([44032; 45208; 45796] ++ 46 :: 32 :: [46972; 47560])%N
  = split_sentences space_ascii ([44032; 45208; 45796] ++ [46])%N
    ++ split_sentences space_ascii [46972; 47560]%N.
Proof.
  apply (X18_split_at_sentence_end space_ascii).
  - reflexivity.
  - apply terminal_not_space_ascii.
  - reflexivity.
  - reflexivity.
Defined.

End CompositionInstances.
